(** * BIMFlow BCF inspector: the store, the upload page and the merge flow

    A shallow embedding of the front end's state layer
    ([frontend/src/store/bcfStore.ts]), of the upload validation
    ([frontend/src/components/Dropzone.tsx]), of the two page handlers that
    drive inspections and merges, and of the parsing of the merge response's
    [Content-Disposition] header.

    JavaScript [Map]s iterate in insertion order, and the aggregate issue list
    is built by iterating one, so a map is an association list kept in
    insertion order.  Asynchronous handlers are cut at their [await]: the part
    before it and the part that runs when the promise settles are separate
    transitions. *)

From Stdlib Require Import List String Ascii Bool NArith Arith Lia.
From Stdlib Require Import DecimalString.
Import ListNotations.

Local Open Scope string_scope.
Local Open Scope list_scope.

(** ** JavaScript [Map] with string keys *)

Module JsMap.

Section WithValue.
Context {V : Type}.

Definition t : Type := list (string * V).

(** [new Map()] *)
Definition empty : t := [].

(** [m.get(k)]; [None] is [undefined]. *)
Fixpoint map_get (k : string) (m : t) : option V :=
  match m with
  | [] => None
  | (k', v) :: m' => if String.eqb k k' then Some v else map_get k m'
  end.

Definition map_has (k : string) (m : t) : bool :=
  match map_get k m with Some _ => true | None => false end.

(** [m.set(k, v)]: an existing key keeps its place in the iteration order
    and gets the new value; a new key goes last. *)
Fixpoint map_set (k : string) (v : V) (m : t) : t :=
  match m with
  | [] => [(k, v)]
  | (k', v') :: m' =>
      if String.eqb k k' then (k, v) :: m' else (k', v') :: map_set k v m'
  end.

(** [m.delete(k)] *)
Fixpoint map_delete (k : string) (m : t) : t :=
  match m with
  | [] => []
  | (k', v') :: m' =>
      if String.eqb k k' then m' else (k', v') :: map_delete k m'
  end.

Definition map_keys (m : t) : list string := map fst m.
Definition map_values (m : t) : list V := map snd m.
Definition map_size (m : t) : nat := List.length m.

(** [m.forEach(f)] where [f] updates an accumulator. *)
Definition map_forEach {A : Type} (f : A -> V -> A) (m : t) (a : A) : A :=
  fold_left (fun acc kv => f acc (snd kv)) m a.

Fixpoint mem (k : string) (ks : list string) : bool :=
  match ks with
  | [] => false
  | k' :: ks' => String.eqb k k' || mem k ks'
  end.

Fixpoint distinct (ks : list string) : bool :=
  match ks with
  | [] => true
  | k :: ks' => negb (mem k ks') && distinct ks'
  end.

(** No key occurs twice: what every [Map] satisfies. *)
Definition wf (m : t) : bool := distinct (map_keys m).

Lemma mem_keys_get k m : mem k (map_keys m) = map_has k m.
Proof.
  unfold map_has.
  induction m as [|[k' v] m IH]; simpl; [reflexivity|].
  destruct (String.eqb k k'); simpl; [reflexivity|exact IH].
Qed.

Lemma get_set_same k v m : map_get k (map_set k v m) = Some v.
Proof.
  induction m as [|[k' v'] m IH]; simpl.
  - now rewrite String.eqb_refl.
  - destruct (String.eqb k k') eqn:E; simpl.
    + now rewrite String.eqb_refl.
    + now rewrite E.
Qed.

Lemma get_set_other k k' v m :
  k <> k' -> map_get k' (map_set k v m) = map_get k' m.
Proof.
  intros Hne.
  assert (Hkk : String.eqb k' k = false)
    by (apply String.eqb_neq; congruence).
  induction m as [|[k0 v0] m IH]; simpl.
  - now rewrite Hkk.
  - destruct (String.eqb k k0) eqn:E; simpl.
    + apply String.eqb_eq in E. subst k0. now rewrite Hkk.
    + now rewrite IH.
Qed.

Lemma keys_set_present k v m :
  map_has k m = true -> map_keys (map_set k v m) = map_keys m.
Proof.
  unfold map_has.
  induction m as [|[k' v'] m IH]; simpl; [discriminate|].
  destruct (String.eqb k k') eqn:E; simpl; intros H.
  - apply String.eqb_eq in E. now subst.
  - now rewrite IH.
Qed.

Lemma keys_set_absent k v m :
  map_has k m = false -> map_set k v m = m ++ [(k, v)].
Proof.
  unfold map_has.
  induction m as [|[k' v'] m IH]; simpl; [reflexivity|].
  destruct (String.eqb k k') eqn:E; simpl; [discriminate|].
  intros H. now rewrite IH.
Qed.

(** Two writes to different keys that are both present commute. *)
Lemma set_set_comm a b va vb m :
  a <> b -> map_has a m = true ->
  map_set b vb (map_set a va m) = map_set a va (map_set b vb m).
Proof.
  intros Hne. unfold map_has.
  assert (Hab : String.eqb a b = false) by now apply String.eqb_neq.
  assert (Hba : String.eqb b a = false)
    by (apply String.eqb_neq; congruence).
  induction m as [|[k v] m IH]; simpl; [discriminate|].
  destruct (String.eqb a k) eqn:Ea; simpl.
  - intros _. apply String.eqb_eq in Ea. subst k.
    rewrite Hba. simpl. now rewrite String.eqb_refl.
  - intros H. destruct (String.eqb b k) eqn:Eb; simpl.
    + now rewrite Hab.
    + rewrite Ea. now rewrite IH.
Qed.

(** The first entry under [k] is the one [map_get] reads and the one
    [map_delete] drops. *)
Lemma get_split k v m :
  map_get k m = Some v ->
  exists before after,
    m = before ++ (k, v) :: after /\
    mem k (map_keys before) = false /\
    map_delete k m = before ++ after.
Proof.
  induction m as [|[k' v'] m IH]; simpl; [discriminate|].
  destruct (String.eqb k k') eqn:E.
  - intros H. injection H as ->. apply String.eqb_eq in E. subst k'.
    exists [], m. repeat split.
  - intros H. destruct (IH H) as (b & a & -> & Hb & Hd).
    exists ((k', v') :: b), a. simpl. rewrite E, Hd. repeat split.
    exact Hb.
Qed.

Lemma get_delete_other k k' m :
  k <> k' -> map_get k' (map_delete k m) = map_get k' m.
Proof.
  intros Hne.
  induction m as [|[k0 v0] m IH]; simpl; [reflexivity|].
  destruct (String.eqb k k0) eqn:E; simpl.
  - apply String.eqb_eq in E. subst k0.
    destruct (String.eqb k' k) eqn:E'; [|reflexivity].
    apply String.eqb_eq in E'. congruence.
  - now rewrite IH.
Qed.

Lemma mem_delete k k' m :
  mem k' (map_keys (map_delete k m)) = true -> mem k' (map_keys m) = true.
Proof.
  induction m as [|[k0 v0] m IH]; simpl; [discriminate|].
  destruct (String.eqb k k0); simpl.
  - intros ->. apply orb_true_r.
  - destruct (String.eqb k' k0); simpl; [reflexivity|exact IH].
Qed.

Lemma wf_delete k m : wf m = true -> wf (map_delete k m) = true.
Proof.
  unfold wf.
  induction m as [|[k0 v0] m IH]; simpl; [reflexivity|].
  intros H. apply andb_true_iff in H as [Hn Hd].
  destruct (String.eqb k k0); simpl; [exact Hd|].
  apply andb_true_iff. split; [|now apply IH].
  apply negb_true_iff. apply negb_true_iff in Hn.
  destruct (mem k0 (map_keys (map_delete k m))) eqn:E; [|reflexivity].
  apply mem_delete in E. congruence.
Qed.

Lemma get_delete_same k m :
  wf m = true -> map_get k (map_delete k m) = None.
Proof.
  unfold wf.
  induction m as [|[k0 v0] m IH]; simpl; [reflexivity|].
  intros H. apply andb_true_iff in H as [Hn Hd].
  destruct (String.eqb k k0) eqn:E; simpl.
  - apply String.eqb_eq in E. subst k0.
    apply negb_true_iff in Hn. rewrite mem_keys_get in Hn.
    unfold map_has in Hn. now destruct (map_get k m).
  - rewrite E. now apply IH.
Qed.

Lemma mem_set k k' v m :
  mem k' (map_keys (map_set k v m)) =
  String.eqb k' k || mem k' (map_keys m).
Proof.
  induction m as [|[k0 v0] m IH]; simpl; [reflexivity|].
  destruct (String.eqb k k0) eqn:E; simpl.
  - apply String.eqb_eq in E. subst k0.
    now destruct (String.eqb k' k).
  - rewrite IH.
    destruct (String.eqb k' k0), (String.eqb k' k); reflexivity.
Qed.

Lemma wf_set k v m : wf m = true -> wf (map_set k v m) = true.
Proof.
  unfold wf.
  induction m as [|[k0 v0] m IH]; simpl; [reflexivity|].
  intros H. apply andb_true_iff in H as [Hn Hd].
  destruct (String.eqb k k0) eqn:E; simpl.
  - apply String.eqb_eq in E. subst k0. now rewrite Hn, Hd.
  - rewrite IH by exact Hd. rewrite mem_set.
    rewrite String.eqb_sym, E. simpl. now rewrite Hn.
Qed.

End WithValue.

Arguments t : clear implicits.

End JsMap.

Import JsMap.

(** ** The store: [frontend/src/store/bcfStore.ts] *)

Module Store.

Record BCFComment : Type := {
  comment_guid : option string;
  comment_author : string;
  comment_date : string;
  comment_text : string
}.

Definition BCFViewpoint : Type := string.

Record BCFIssue : Type := {
  guid : string;
  title : string;
  status : string;
  priority : string;
  author : string;
  createdAt : string;
  description : option string;
  comments : list BCFComment;
  viewpoints : list BCFViewpoint;
  snapshotUrl : option string;
  fileName : string
}.

(** A browser [File]: the store and the pages read its [name] and [size];
    [content] stands for the opaque payload that is only ever sent on. *)
Record File : Type := {
  name : string;
  size : N;
  content : N
}.

Record UploadedFile : Type := {
  file : File;
  issues : list BCFIssue;
  inspected : bool
}.

Record BCFState : Type := {
  uploadedFiles : JsMap.t UploadedFile;
  allIssues : list BCFIssue;
  selectedIssue : option BCFIssue;
  isInspecting : bool;
  isMerging : bool
}.

(** The state [create] starts from. *)
Definition initial : BCFState := {|
  uploadedFiles := JsMap.empty;
  allIssues := [];
  selectedIssue := None;
  isInspecting := false;
  isMerging := false
|}.

(** The loop both [setFileIssues] and [removeFile] run:
    [newFiles.forEach((fileData) => allIssues.push(...fileData.issues))]
    on an [allIssues] that starts empty. *)
Definition collectIssues (newFiles : JsMap.t UploadedFile) : list BCFIssue :=
  map_forEach (fun allIssues fileData => allIssues ++ issues fileData)
    newFiles [].

(** [set] merges the returned fields into the state; here only
    [uploadedFiles] is returned. *)
Definition addUploadedFile (f : File) (state : BCFState) : BCFState :=
  let newFiles :=
    map_set (name f) {| file := f; issues := []; inspected := false |}
      (uploadedFiles state) in
  {| uploadedFiles := newFiles;
     allIssues := allIssues state;
     selectedIssue := selectedIssue state;
     isInspecting := isInspecting state;
     isMerging := isMerging state |}.

Definition setFileIssues (fileName : string) (iss : list BCFIssue)
    (state : BCFState) : BCFState :=
  let newFiles :=
    match map_get fileName (uploadedFiles state) with
    | Some fileData =>
        map_set fileName
          {| file := file fileData; issues := iss; inspected := true |}
          (uploadedFiles state)
    | None => uploadedFiles state
    end in
  {| uploadedFiles := newFiles;
     allIssues := collectIssues newFiles;
     selectedIssue := selectedIssue state;
     isInspecting := isInspecting state;
     isMerging := isMerging state |}.

Definition setSelectedIssue (issue : option BCFIssue) (state : BCFState)
    : BCFState :=
  {| uploadedFiles := uploadedFiles state;
     allIssues := allIssues state;
     selectedIssue := issue;
     isInspecting := isInspecting state;
     isMerging := isMerging state |}.

Definition setIsInspecting (b : bool) (state : BCFState) : BCFState :=
  {| uploadedFiles := uploadedFiles state;
     allIssues := allIssues state;
     selectedIssue := selectedIssue state;
     isInspecting := b;
     isMerging := isMerging state |}.

Definition setIsMerging (b : bool) (state : BCFState) : BCFState :=
  {| uploadedFiles := uploadedFiles state;
     allIssues := allIssues state;
     selectedIssue := selectedIssue state;
     isInspecting := isInspecting state;
     isMerging := b |}.

Definition clearFiles (state : BCFState) : BCFState :=
  {| uploadedFiles := JsMap.empty;
     allIssues := [];
     selectedIssue := None;
     isInspecting := isInspecting state;
     isMerging := isMerging state |}.

Definition removeFile (fileName : string) (state : BCFState) : BCFState :=
  let newFiles := map_delete fileName (uploadedFiles state) in
  {| uploadedFiles := newFiles;
     allIssues := collectIssues newFiles;
     selectedIssue := selectedIssue state;
     isInspecting := isInspecting state;
     isMerging := isMerging state |}.

(** *** The aggregate as a function of the registry *)

(** The archives' issue lists, one after the other, in the map's order. *)
Definition concatIssues (m : JsMap.t UploadedFile) : list BCFIssue :=
  List.concat (map issues (map_values m)).

(** The stored aggregate agrees with the registry. *)
Definition aggregate_fresh (state : BCFState) : Prop :=
  allIssues state = concatIssues (uploadedFiles state).

(** The registry operations a caller can issue. *)
Inductive op : Type :=
| Register (f : File)
| ApplyResult (fileName : string) (iss : list BCFIssue)
| Remove (fileName : string)
| Clear.

Definition apply (o : op) (state : BCFState) : BCFState :=
  match o with
  | Register f => addUploadedFile f state
  | ApplyResult n iss => setFileIssues n iss state
  | Remove n => removeFile n state
  | Clear => clearFiles state
  end.

Definition run (ops : list op) (state : BCFState) : BCFState :=
  fold_left (fun s o => apply o s) ops state.

Lemma collect_from acc (m : JsMap.t UploadedFile) :
  map_forEach (fun a fd => a ++ issues fd) m acc = acc ++ concatIssues m.
Proof.
  unfold map_forEach, concatIssues, map_values.
  revert acc. induction m as [|[k v] m IH]; intros acc; simpl.
  - now rewrite app_nil_r.
  - rewrite IH. now rewrite app_assoc.
Qed.

Lemma collectIssues_concat m : collectIssues m = concatIssues m.
Proof. unfold collectIssues. now rewrite collect_from. Qed.

Lemma concatIssues_app m1 m2 :
  concatIssues (m1 ++ m2) = concatIssues m1 ++ concatIssues m2.
Proof.
  unfold concatIssues, map_values. now rewrite !map_app, concat_app.
Qed.

Lemma setFileIssues_fresh n iss s : aggregate_fresh (setFileIssues n iss s).
Proof. unfold aggregate_fresh. simpl. apply collectIssues_concat. Qed.

Lemma removeFile_fresh n s : aggregate_fresh (removeFile n s).
Proof. unfold aggregate_fresh. simpl. apply collectIssues_concat. Qed.

Lemma clearFiles_fresh s : aggregate_fresh (clearFiles s).
Proof. reflexivity. Qed.

(** Registering leaves the stored aggregate alone; that agrees with the
    registry when the name is new, or when its entry held no issues. *)
Lemma concatIssues_set_empty n fd (m : JsMap.t UploadedFile) :
  match map_get n m with Some old => issues old = [] | None => True end ->
  issues fd = [] ->
  concatIssues (map_set n fd m) = concatIssues m.
Proof.
  intros Hold Hfd. unfold concatIssues, map_values in *.
  induction m as [|[k v] m IH]; simpl in *.
  - now rewrite Hfd.
  - destruct (String.eqb n k); simpl.
    + now rewrite Hfd, Hold.
    + now rewrite IH.
Qed.

Lemma addUploadedFile_fresh f s :
  aggregate_fresh s ->
  match map_get (name f) (uploadedFiles s) with
  | Some old => issues old = []
  | None => True
  end ->
  aggregate_fresh (addUploadedFile f s).
Proof.
  unfold aggregate_fresh. simpl. intros -> H.
  symmetry. now apply concatIssues_set_empty.
Qed.

(** Every operation keeps the keys distinct. *)
Lemma apply_wf o s :
  wf (uploadedFiles s) = true -> wf (uploadedFiles (apply o s)) = true.
Proof.
  destruct o as [f|n iss|n|]; simpl; intros H.
  - now apply wf_set.
  - destruct (map_get n (uploadedFiles s)); [now apply wf_set|exact H].
  - now apply wf_delete.
  - reflexivity.
Qed.

Lemma run_wf ops : forall s,
  wf (uploadedFiles s) = true -> wf (uploadedFiles (run ops s)) = true.
Proof.
  unfold run. induction ops as [|o ops IH]; intros s H; simpl; [exact H|].
  apply IH. now apply apply_wf.
Qed.

(** *** Sample data *)

Definition sample_issue (g fn : string) : BCFIssue := {|
  guid := g;
  title := "Duct crosses beam";
  status := "Open";
  priority := "High";
  author := "Jane Smith";
  createdAt := "2024-03-01T09:00:00.000Z";
  description := None;
  comments := [];
  viewpoints := [];
  snapshotUrl := None;
  fileName := fn
|}.

Definition a_bcf : File := {| name := "a.bcf"; size := 2048; content := 1 |}.
Definition b_bcf : File := {| name := "b.bcf"; size := 4096; content := 2 |}.

(** A second file that carries the name of [a_bcf]. *)
Definition a_bcf_again : File :=
  {| name := "a.bcf"; size := 512; content := 3 |}.

Definition a_issues : list BCFIssue :=
  [sample_issue "a-1" "a.bcf"; sample_issue "a-2" "a.bcf"].
Definition b_issues : list BCFIssue :=
  [sample_issue "b-1" "b.bcf"; sample_issue "b-2" "b.bcf";
   sample_issue "b-3" "b.bcf"].

(** The two worked examples of the specification: five issues, a's before
    b's, in either completion order; three once a.bcf is removed. *)
Example aggregate_five :
  allIssues (run [Register a_bcf; Register b_bcf;
                  ApplyResult "b.bcf" b_issues; ApplyResult "a.bcf" a_issues]
                 initial)
  = a_issues ++ b_issues.
Proof. reflexivity. Qed.

Example aggregate_three :
  allIssues (run [Register a_bcf; Register b_bcf;
                  ApplyResult "a.bcf" a_issues; ApplyResult "b.bcf" b_issues;
                  Remove "a.bcf"]
                 initial)
  = b_issues.
Proof. reflexivity. Qed.

(** *** The aggregate after a mutation *)

(** Sequences of register, remove and clear alone never attach an issue, so
    the aggregate stays empty and fresh along them. *)
Definition structural (o : op) : bool :=
  match o with ApplyResult _ _ => false | _ => true end.

Lemma structural_step o s :
  structural o = true ->
  aggregate_fresh s /\ concatIssues (uploadedFiles s) = [] ->
  aggregate_fresh (apply o s) /\ concatIssues (uploadedFiles (apply o s)) = [].
Proof.
  destruct o as [f|n iss|n|]; simpl; try discriminate; intros _ [Hf He].
  - assert (Hall : forall n (m : JsMap.t UploadedFile),
               concatIssues m = [] ->
               match map_get n m with
               | Some old => issues old = []
               | None => True
               end).
    { intros n m. unfold concatIssues, map_values.
      induction m as [|[k v] m IH]; simpl; [trivial|].
      intros H. apply app_eq_nil in H as [Hv Hm].
      destruct (String.eqb n k); [exact Hv|now apply IH]. }
    split.
    + apply addUploadedFile_fresh; [exact Hf|now apply Hall].
    + simpl. rewrite concatIssues_set_empty; [exact He|now apply Hall|reflexivity].
  - split; [apply removeFile_fresh|].
    simpl. revert He. unfold concatIssues, map_values.
    induction (uploadedFiles s) as [|[k v] m IH]; simpl; [trivial|].
    intros H. apply app_eq_nil in H as [Hv Hm].
    destruct (String.eqb n k); simpl; [exact Hm|].
    rewrite Hv. now apply IH.
  - split; reflexivity.
Qed.

(** Along any sequence of register, remove and clear operations from the
    initial state the stored aggregate is empty and equals the concatenation
    of the registered archives' issue lists. *)
Theorem structural_run_fresh ops :
  forallb structural ops = true ->
  aggregate_fresh (run ops initial) /\ allIssues (run ops initial) = [].
Proof.
  intros H.
  enough (G : forall s,
             aggregate_fresh s /\ concatIssues (uploadedFiles s) = [] ->
             aggregate_fresh (run ops s) /\
             concatIssues (uploadedFiles (run ops s)) = []).
  { destruct (G initial) as [Hf He]; [split; reflexivity|].
    split; [exact Hf|]. now rewrite Hf. }
  unfold run. induction ops as [|o ops IH]; intros s Hs; simpl.
  - apply Hs.
  - simpl in H. apply andb_true_iff in H as [Ho Hops].
    apply IH; [exact Hops|]. now apply structural_step.
Qed.

Lemma structural_run_fresh_witness :
  let ops := [Register a_bcf; Register b_bcf; Remove "a.bcf"; Clear;
              Register b_bcf; Register b_bcf] in
  aggregate_fresh (run ops initial) /\ allIssues (run ops initial) = [].
Proof.
  apply (structural_run_fresh
           [Register a_bcf; Register b_bcf; Remove "a.bcf"; Clear;
            Register b_bcf; Register b_bcf]).
  reflexivity.
Defined.

(** Applying an inspection result, removing an archive and clearing each
    leave the stored aggregate equal to the concatenation, in map order, of
    the registered archives' issue lists, whatever the state before. *)
Theorem recomputing_mutations_fresh n iss s :
  aggregate_fresh (setFileIssues n iss s) /\
  aggregate_fresh (removeFile n s) /\
  aggregate_fresh (clearFiles s).
Proof.
  split; [apply setFileIssues_fresh|].
  split; [apply removeFile_fresh|apply clearFiles_fresh].
Qed.

(** The registry never holds a name twice, whatever operations ran. *)
Theorem registry_keys_distinct ops :
  wf (uploadedFiles (run ops initial)) = true.
Proof. apply run_wf. reflexivity. Qed.

(** C1, at the input where the code departs from it: a.bcf is registered,
    its inspection result is applied, and a.bcf is registered again.
    [addUploadedFile] resets the entry to an empty issue list but returns only
    [uploadedFiles], so the stored aggregate still holds the old issue and
    differs from the concatenation of the registered issue lists. *)
Theorem addUploadedFile_keeps_old_aggregate :
  let i := sample_issue "a-1" "a.bcf" in
  let s := run [Register a_bcf; ApplyResult "a.bcf" [i]; Register a_bcf]
             initial in
  map_get "a.bcf" (uploadedFiles s)
    = Some {| file := a_bcf; issues := []; inspected := false |} /\
  concatIssues (uploadedFiles s) = [] /\
  allIssues s = [i] /\
  ~ aggregate_fresh s.
Proof.
  cbv zeta. repeat split. unfold aggregate_fresh. vm_compute. discriminate.
Qed.

(** *** Applying inspection results *)

Lemma setFileIssues_comm a b ia ib s :
  a <> b ->
  setFileIssues b ib (setFileIssues a ia s)
  = setFileIssues a ia (setFileIssues b ib s).
Proof.
  intros Hne. unfold setFileIssues. simpl.
  destruct (map_get a (uploadedFiles s)) as [fa|] eqn:Ea;
    destruct (map_get b (uploadedFiles s)) as [fb|] eqn:Eb;
    rewrite ?get_set_other by congruence; rewrite ?Ea, ?Eb;
    try reflexivity.
  rewrite (set_set_comm a b) by (trivial; unfold map_has; now rewrite Ea).
  reflexivity.
Qed.

(** C4: with both archives registered, the two inspection results can be
    applied in either order: the resulting states are equal, so the registry
    map (entries and their order) and the aggregate are the same. *)
Theorem setFileIssues_either_order a b ia ib s :
  a <> b ->
  map_has a (uploadedFiles s) = true ->
  map_has b (uploadedFiles s) = true ->
  let ab := setFileIssues b ib (setFileIssues a ia s) in
  let ba := setFileIssues a ia (setFileIssues b ib s) in
  uploadedFiles ab = uploadedFiles ba /\
  allIssues ab = allIssues ba /\
  ab = ba /\
  map_keys (uploadedFiles ab) = map_keys (uploadedFiles s).
Proof.
  intros Hne Ha Hb ab ba.
  assert (E : ab = ba) by (apply setFileIssues_comm; exact Hne).
  repeat split; try (now rewrite E).
  subst ab. unfold setFileIssues. simpl.
  unfold map_has in Ha, Hb.
  destruct (map_get a (uploadedFiles s)) as [fa|] eqn:Ea; [|discriminate].
  rewrite get_set_other by exact Hne.
  destruct (map_get b (uploadedFiles s)) as [fb|] eqn:Eb; [|discriminate].
  rewrite keys_set_present.
  - apply keys_set_present. unfold map_has. now rewrite Ea.
  - unfold map_has. rewrite get_set_other by exact Hne. now rewrite Eb.
Qed.

Lemma setFileIssues_either_order_witness :
  let s := run [Register a_bcf; Register b_bcf] initial in
  let ab := setFileIssues "b.bcf" b_issues (setFileIssues "a.bcf" a_issues s) in
  let ba := setFileIssues "a.bcf" a_issues (setFileIssues "b.bcf" b_issues s) in
  uploadedFiles ab = uploadedFiles ba /\
  allIssues ab = allIssues ba /\
  ab = ba /\
  map_keys (uploadedFiles ab) = map_keys (uploadedFiles s).
Proof.
  apply (setFileIssues_either_order "a.bcf" "b.bcf" a_issues b_issues
           (run [Register a_bcf; Register b_bcf] initial)).
  - discriminate.
  - reflexivity.
  - reflexivity.
Defined.

(** C5: a result for a name that is not registered leaves the registry as it
    was: the map is the same list of entries, nothing added, nothing changed,
    and the call returns a state (there is no failure path). *)
Theorem setFileIssues_unregistered n iss s :
  map_get n (uploadedFiles s) = None ->
  uploadedFiles (setFileIssues n iss s) = uploadedFiles s.
Proof. intros H. unfold setFileIssues. simpl. now rewrite H. Qed.

Lemma setFileIssues_unregistered_witness :
  uploadedFiles
    (setFileIssues "gone.bcf" a_issues (run [Register a_bcf] initial))
  = uploadedFiles (run [Register a_bcf] initial).
Proof.
  apply (setFileIssues_unregistered "gone.bcf" a_issues
           (run [Register a_bcf] initial)).
  reflexivity.
Defined.

(** *** Registering a name again *)

(** The reading of C3: once a name has been registered again, a result that
    arrives for it changes nothing in the registry. *)
Definition late_result_discarded : Prop :=
  forall (s : BCFState) (f : File) (late : list BCFIssue),
    map_has (name f) (uploadedFiles s) = true ->
    uploadedFiles (setFileIssues (name f) late (addUploadedFile f s))
    = uploadedFiles (addUploadedFile f s).

(** C3 fails: a.bcf is registered, then a second file named a.bcf is
    registered in its place, then the result of the first inspection arrives.
    The second entry was reset, and the late result lands in it. *)
Lemma late_result_reaches_new_entry :
  let late := [sample_issue "a-1" "a.bcf"] in
  let s1 := run [Register a_bcf; Register a_bcf_again] initial in
  let s2 := setFileIssues "a.bcf" late s1 in
  map_get "a.bcf" (uploadedFiles s1)
    = Some {| file := a_bcf_again; issues := []; inspected := false |} /\
  map_get "a.bcf" (uploadedFiles s2)
    = Some {| file := a_bcf_again; issues := late; inspected := true |} /\
  allIssues s2 = late /\
  ~ late_result_discarded.
Proof.
  cbv zeta. repeat split.
  intros H.
  specialize (H (run [Register a_bcf] initial) a_bcf_again
                [sample_issue "a-1" "a.bcf"] eq_refl).
  vm_compute in H. discriminate.
Qed.

(** C3 as the code has it: registering a name that is already there puts an
    entry with the new file, no issues and inspected=false in the old
    entry's place, and a result applied afterwards under that name is stored
    in this entry, whichever inspection it came from. *)
Theorem reregister_resets_then_result_lands f iss s :
  map_has (name f) (uploadedFiles s) = true ->
  let s1 := addUploadedFile f s in
  let s2 := setFileIssues (name f) iss s1 in
  map_get (name f) (uploadedFiles s1)
    = Some {| file := f; issues := []; inspected := false |} /\
  map_keys (uploadedFiles s1) = map_keys (uploadedFiles s) /\
  (forall n, n <> name f ->
     map_get n (uploadedFiles s1) = map_get n (uploadedFiles s)) /\
  map_get (name f) (uploadedFiles s2)
    = Some {| file := f; issues := iss; inspected := true |} /\
  map_keys (uploadedFiles s2) = map_keys (uploadedFiles s).
Proof.
  intros H s1 s2. subst s2 s1. unfold setFileIssues, addUploadedFile. simpl.
  rewrite get_set_same. simpl. rewrite get_set_same.
  repeat split.
  - now apply keys_set_present.
  - intros n Hn. apply get_set_other. congruence.
  - rewrite keys_set_present; [now apply keys_set_present|].
    unfold map_has. now rewrite get_set_same.
Qed.

Lemma reregister_resets_then_result_lands_witness :
  let s := setFileIssues "a.bcf" a_issues (run [Register a_bcf; Register b_bcf] initial) in
  let s1 := addUploadedFile a_bcf_again s in
  let s2 := setFileIssues "a.bcf" b_issues s1 in
  map_get "a.bcf" (uploadedFiles s1)
    = Some {| file := a_bcf_again; issues := []; inspected := false |} /\
  map_keys (uploadedFiles s1) = map_keys (uploadedFiles s) /\
  (forall n, n <> "a.bcf" ->
     map_get n (uploadedFiles s1) = map_get n (uploadedFiles s)) /\
  map_get "a.bcf" (uploadedFiles s2)
    = Some {| file := a_bcf_again; issues := b_issues; inspected := true |} /\
  map_keys (uploadedFiles s2) = map_keys (uploadedFiles s).
Proof.
  apply (reregister_resets_then_result_lands a_bcf_again b_issues
           (setFileIssues "a.bcf" a_issues
              (run [Register a_bcf; Register b_bcf] initial))).
  reflexivity.
Defined.

(** *** Removing an archive *)

(** C7: removing a registered archive takes its entry out of the map and
    nothing else.  The registry was [before ++ (n, fd) :: after]; afterwards
    it is [before ++ after], the name is gone, every other name reads as it
    did, and the aggregate is the other archives' issues in their old order:
    the old concatenation with exactly [issues fd] cut out. *)
Theorem removeFile_cuts_out_one_archive n fd s :
  wf (uploadedFiles s) = true ->
  map_get n (uploadedFiles s) = Some fd ->
  exists before after,
    uploadedFiles s = before ++ (n, fd) :: after /\
    uploadedFiles (removeFile n s) = before ++ after /\
    concatIssues (uploadedFiles s)
      = concatIssues before ++ issues fd ++ concatIssues after /\
    allIssues (removeFile n s) = concatIssues before ++ concatIssues after /\
    allIssues (removeFile n s) = concatIssues (uploadedFiles (removeFile n s)) /\
    map_get n (uploadedFiles (removeFile n s)) = None /\
    (forall n', n' <> n ->
       map_get n' (uploadedFiles (removeFile n s))
       = map_get n' (uploadedFiles s)).
Proof.
  intros Hwf Hget.
  destruct (get_split n fd _ Hget) as (before & after & Hm & _ & Hdel).
  exists before, after. simpl. rewrite collectIssues_concat, Hdel.
  split; [exact Hm|]. split; [reflexivity|].
  split; [rewrite Hm; apply concatIssues_app|].
  split; [apply concatIssues_app|]. split; [reflexivity|].
  rewrite <- Hdel. split.
  - now apply get_delete_same.
  - intros n' Hn'. apply get_delete_other. congruence.
Qed.

Lemma removeFile_cuts_out_one_archive_witness :
  let s := run [Register a_bcf; Register b_bcf;
                ApplyResult "b.bcf" b_issues; ApplyResult "a.bcf" a_issues]
             initial in
  let fd := {| file := a_bcf; issues := a_issues; inspected := true |} in
  exists before after,
    uploadedFiles s = before ++ ("a.bcf", fd) :: after /\
    uploadedFiles (removeFile "a.bcf" s) = before ++ after /\
    concatIssues (uploadedFiles s)
      = concatIssues before ++ issues fd ++ concatIssues after /\
    allIssues (removeFile "a.bcf" s)
      = concatIssues before ++ concatIssues after /\
    allIssues (removeFile "a.bcf" s)
      = concatIssues (uploadedFiles (removeFile "a.bcf" s)) /\
    map_get "a.bcf" (uploadedFiles (removeFile "a.bcf" s)) = None /\
    (forall n', n' <> "a.bcf" ->
       map_get n' (uploadedFiles (removeFile "a.bcf" s))
       = map_get n' (uploadedFiles s)).
Proof.
  apply (removeFile_cuts_out_one_archive "a.bcf"
           {| file := a_bcf; issues := a_issues; inspected := true |}
           (run [Register a_bcf; Register b_bcf;
                 ApplyResult "b.bcf" b_issues; ApplyResult "a.bcf" a_issues]
              initial)).
  - reflexivity.
  - reflexivity.
Defined.

(** *** The selection *)

(** C9: [removeFile] and [addUploadedFile] return no [selectedIssue] field,
    so a selected issue stays selected through both, also when the archive it
    came from is the one removed or registered again; [clearFiles] is the one
    registry operation that resets it. *)
Theorem selection_survives_remove_and_register issue f n s :
  selectedIssue (removeFile n (setSelectedIssue (Some issue) s)) = Some issue /\
  selectedIssue (addUploadedFile f (setSelectedIssue (Some issue) s))
    = Some issue /\
  selectedIssue (removeFile n s) = selectedIssue s /\
  selectedIssue (addUploadedFile f s) = selectedIssue s /\
  selectedIssue (clearFiles (setSelectedIssue (Some issue) s)) = None.
Proof. repeat split. Qed.

Example selection_outlives_its_archive :
  let i := sample_issue "a-1" "a.bcf" in
  let s := setSelectedIssue (Some i)
             (run [Register a_bcf; ApplyResult "a.bcf" [i]] initial) in
  selectedIssue (removeFile (fileName i) s) = Some i /\
  allIssues (removeFile (fileName i) s) = [] /\
  selectedIssue (addUploadedFile a_bcf_again s) = Some i.
Proof. repeat split. Qed.

End Store.

(** ** Upload validation: [frontend/src/components/Dropzone.tsx] *)

Module Dropzone.

Import Store.

(** File names are strings of code units below 256.  On that range
    [toLowerCase] moves A-Z and the Latin-1 capitals (all of U+00C0-U+00DE
    but the multiplication sign) 32 places up and leaves the rest. *)
Definition lower (c : ascii) : ascii :=
  let n := N_of_ascii c in
  if ((65 <=? n) && (n <=? 90) || (192 <=? n) && (n <=? 214)
      || (216 <=? n) && (n <=? 222))%N
  then ascii_of_N (n + 32)
  else c.

Fixpoint toLowerCase (s : string) : string :=
  match s with
  | EmptyString => EmptyString
  | String c s' => String (lower c) (toLowerCase s')
  end.

(** [s.split('.')]: the pieces between the dots, never an empty array. *)
Fixpoint split_dot (s : string) : list string :=
  match s with
  | EmptyString => [EmptyString]
  | String c s' =>
      if Ascii.eqb c "." then EmptyString :: split_dot s'
      else match split_dot s' with
           | piece :: pieces => String c piece :: pieces
           | [] => [String c EmptyString]
           end
  end.

(** [a.pop()]: the last element, [undefined] on an empty array. *)
Fixpoint pop (a : list string) : option string :=
  match a with
  | [] => None
  | [x] => Some x
  | _ :: a' => pop a'
  end.

(** [x || ''] *)
Definition or_empty (x : option string) : string :=
  match x with Some s => s | None => EmptyString end.

(** [a.includes(x)] *)
Definition includes (a : list string) (x : string) : bool :=
  existsb (String.eqb x) a.

Definition decimal (n : nat) : string :=
  NilEmpty.string_of_uint (Nat.to_uint n).

(** 100 * 1024 * 1024 *)
Definition sizeLimit : N := 100 * 1024 * 1024.

Definition invalidType (f : File) : string :=
  (name f
   ++ ": Invalid file type. Only .bcf and .bcfzip files are accepted.")%string.

Definition tooLarge (f : File) : string :=
  (name f ++ ": File too large. Maximum size is 100MB.")%string.

Definition tooMany (maxFiles : nat) : string :=
  ("Maximum " ++ decimal maxFiles ++ " files allowed")%string.

(** One turn of the [forEach] of [validateFiles] on the two arrays. *)
Definition validateOne (acc : list File * list string) (f : File)
    : list File * list string :=
  let (valid, errors) := acc in
  let extension := pop (split_dot (toLowerCase (name f))) in
  if negb (includes ["bcf"; "bcfzip"] (or_empty extension)) then
    (valid, errors ++ [invalidType f])
  else if (sizeLimit <? size f)%N then
    (valid, errors ++ [tooLarge f])
  else
    (valid ++ [f], errors).

Definition validateFiles (maxFiles : nat) (files : list File)
    : list File * list string :=
  if (maxFiles <? List.length files)%nat then ([], [tooMany maxFiles])
  else fold_left validateOne files ([], []).

(** [handleFiles]: what the component's error text becomes and, when the
    callback runs, the files handed to [onFilesAccepted].  [files] is [None]
    for a null [FileList]; the timer that clears the error later is left
    out. *)
Definition handleFiles (maxFiles : nat) (disabled : bool)
    (files : option (list File)) (error : option string)
    : option string * option (list File) :=
  match files with
  | None => (error, None)
  | Some fileArray =>
      if (List.length fileArray =? 0)%nat || disabled then (error, None)
      else
        let (valid, errors) := validateFiles maxFiles fileArray in
        let error1 :=
          if (0 <? List.length errors)%nat then Some (String.concat " " errors)
          else error in
        if (0 <? List.length valid)%nat then (None, Some valid)
        else (error1, None)
  end.

(** The default of the [maxFiles] prop, which the upload page keeps. *)
Definition defaultMaxFiles : nat := 10.

(** *** What the extension test decides *)

Fixpoint has_dot (s : string) : bool :=
  match s with
  | EmptyString => false
  | String c s' => Ascii.eqb c "." || has_dot s'
  end.

Definition last_piece (s : string) : string := or_empty (pop (split_dot s)).

Lemma split_dot_nonempty s : split_dot s <> [].
Proof.
  destruct s as [|c s]; simpl; [discriminate|].
  destruct (Ascii.eqb c "."); [discriminate|].
  destruct (split_dot s); discriminate.
Qed.

Lemma pop_cons x a : a <> [] -> pop (x :: a) = pop a.
Proof. destruct a; [congruence|reflexivity]. Qed.

Lemma last_piece_no_dot s : has_dot s = false -> split_dot s = [s].
Proof.
  induction s as [|c s IH]; simpl; [reflexivity|].
  destruct (Ascii.eqb c "."); simpl; [discriminate|].
  intros H. now rewrite IH.
Qed.

Lemma split_dot_two t e : List.length (split_dot (t ++ String "." e)) >= 2.
Proof.
  induction t as [|c t IH]; simpl.
  - pose proof (split_dot_nonempty e).
    destruct (split_dot e); simpl; [congruence|lia].
  - destruct (Ascii.eqb c "."); simpl; [lia|].
    destruct (split_dot (t ++ String "." e)); simpl in *; lia.
Qed.

Lemma split_dot_one t : forall p, split_dot t = [p] -> has_dot t = false.
Proof.
  induction t as [|c t IH]; intros p; simpl; [reflexivity|].
  destruct (Ascii.eqb c "."); simpl.
  - intros H. injection H as _ H. now apply split_dot_nonempty in H.
  - destruct (split_dot t) as [|q qs] eqn:E;
      [now apply split_dot_nonempty in E|].
    intros H. injection H as _ Hqs. subst qs. exact (IH q eq_refl).
Qed.

Lemma last_piece_after_dot stem e :
  has_dot e = false ->
  last_piece (stem ++ String "." e)%string = e.
Proof.
  intros He. unfold last_piece.
  induction stem as [|c stem IH]; cbn [split_dot String.append].
  - change (Ascii.eqb "." ".") with true. cbv iota.
    rewrite pop_cons by apply split_dot_nonempty.
    now rewrite last_piece_no_dot.
  - destruct (Ascii.eqb c ".").
    + rewrite pop_cons by apply split_dot_nonempty. exact IH.
    + pose proof (split_dot_two stem e) as G.
      destruct (split_dot (stem ++ String "." e)) as [|p [|p' ps]];
        simpl in G; try lia.
      exact IH.
Qed.

Lemma has_dot_split s :
  has_dot s = true ->
  exists stem, s = (stem ++ String "." (last_piece s))%string
               /\ has_dot (last_piece s) = false.
Proof.
  unfold last_piece.
  induction s as [|c s IH]; cbn [split_dot has_dot]; [discriminate|].
  destruct (Ascii.eqb c ".") eqn:Ec; cbn [orb].
  - intros _. apply Ascii.eqb_eq in Ec. subst c.
    rewrite pop_cons by apply split_dot_nonempty.
    destruct (has_dot s) eqn:Hs.
    + destruct (IH eq_refl) as (stem & Hstem & Hnd).
      exists (String "." stem). simpl. split; [now rewrite <- Hstem|exact Hnd].
    + exists EmptyString. rewrite last_piece_no_dot by exact Hs.
      simpl. split; [reflexivity|exact Hs].
  - intros Hs. destruct (IH Hs) as (stem & Hstem & Hnd).
    destruct (split_dot s) as [|p [|p' ps]] eqn:E.
    + now apply split_dot_nonempty in E.
    + rewrite (split_dot_one s p E) in Hs. discriminate.
    + exists (String c stem). split; [|exact Hnd].
      cbn [String.append]. f_equal. exact Hstem.
Qed.

Lemma lower_dot c : Ascii.eqb (lower c) "." = Ascii.eqb c ".".
Proof.
  destruct c as [[] [] [] [] [] [] [] []]; vm_compute; reflexivity.
Qed.

Lemma has_dot_lower s : has_dot (toLowerCase s) = has_dot s.
Proof.
  induction s as [|c s IH]; simpl; [reflexivity|].
  now rewrite lower_dot, IH.
Qed.

Lemma has_dot_app stem e : has_dot (stem ++ String "." e)%string = true.
Proof.
  induction stem as [|c stem IH]; simpl; [reflexivity|].
  rewrite IH. apply orb_true_r.
Qed.

(** [s] ends in [suffix]. *)
Fixpoint ends_with (suffix s : string) : bool :=
  String.eqb s suffix
  || match s with
     | EmptyString => false
     | String _ s' => ends_with suffix s'
     end.

Lemma ends_with_spec suffix s :
  ends_with suffix s = true <-> exists stem, s = (stem ++ suffix)%string.
Proof.
  induction s as [|c s IH]; cbn [ends_with].
  - rewrite orb_false_r. split.
    + intros H. apply String.eqb_eq in H. now exists EmptyString.
    + intros [stem H]. apply String.eqb_eq.
      destruct stem; simpl in H; [exact H|discriminate].
  - rewrite orb_true_iff, IH. split.
    + intros [H|[stem H]].
      * apply String.eqb_eq in H. now exists EmptyString.
      * exists (String c stem). simpl. now rewrite H.
    + intros [stem H]. destruct stem as [|c' stem]; simpl in H.
      * left. now apply String.eqb_eq.
      * right. injection H as _ H. now exists stem.
Qed.

(** The lower-cased name ends in ".bcf" or in ".bcfzip". *)
Definition has_extension (f : File) : bool :=
  ends_with ".bcf" (toLowerCase (name f))
  || ends_with ".bcfzip" (toLowerCase (name f)).

(** The lower-cased name has no dot and is "bcf" or "bcfzip" itself. *)
Definition bare_name (f : File) : bool :=
  String.eqb (toLowerCase (name f)) "bcf"
  || String.eqb (toLowerCase (name f)) "bcfzip".

(** What [validateOne] lets through. *)
Definition passes (f : File) : bool :=
  includes ["bcf"; "bcfzip"] (last_piece (toLowerCase (name f)))
  && (size f <=? sizeLimit)%N.

Lemma ends_with_piece e s :
  has_dot e = false ->
  ends_with (String "." e) s = has_dot s && String.eqb (last_piece s) e.
Proof.
  intros He.
  destruct (ends_with (String "." e) s) eqn:E.
  - apply ends_with_spec in E as [stem ->].
    rewrite has_dot_app, last_piece_after_dot by exact He.
    now rewrite String.eqb_refl.
  - destruct (has_dot s) eqn:Hs; [|reflexivity]. simpl.
    destruct (String.eqb (last_piece s) e) eqn:Ee; [|reflexivity].
    apply String.eqb_eq in Ee.
    destruct (has_dot_split s Hs) as (stem & Hstem & _).
    rewrite Ee in Hstem.
    assert (G : ends_with (String "." e) s = true)
      by (apply ends_with_spec; now exists stem).
    congruence.
Qed.

Lemma extension_test f :
  includes ["bcf"; "bcfzip"] (last_piece (toLowerCase (name f)))
  = has_extension f || bare_name f.
Proof.
  unfold has_extension, bare_name, includes.
  rewrite !ends_with_piece by reflexivity.
  set (n := toLowerCase (name f)). simpl.
  destruct (has_dot n) eqn:Hn; simpl.
  - destruct (String.eqb n "bcf") eqn:E1.
    { apply String.eqb_eq in E1. rewrite E1 in Hn. discriminate. }
    destruct (String.eqb n "bcfzip") eqn:E2.
    { apply String.eqb_eq in E2. rewrite E2 in Hn. discriminate. }
    now rewrite !orb_false_r.
  - unfold last_piece. rewrite last_piece_no_dot by exact Hn. simpl.
    now rewrite orb_false_r.
Qed.

Lemma validateOne_valid valid errors f :
  exists errors',
    validateOne (valid, errors) f
    = (valid ++ (if passes f then [f] else []), errors').
Proof.
  unfold validateOne, passes, last_piece.
  destruct (includes ["bcf"; "bcfzip"]
              (or_empty (pop (split_dot (toLowerCase (name f))))));
    cbn [negb andb].
  - rewrite N.leb_antisym.
    destruct (sizeLimit <? size f)%N; cbn [negb]; eexists;
      rewrite ?app_nil_r; reflexivity.
  - eexists. now rewrite app_nil_r.
Qed.

Lemma validate_fold files : forall valid errors,
  fst (fold_left validateOne files (valid, errors))
  = valid ++ filter passes files.
Proof.
  induction files as [|f files IH]; intros valid errors; cbn [fold_left filter].
  - now rewrite app_nil_r.
  - destruct (validateOne_valid valid errors f) as [errors' ->].
    rewrite IH. rewrite <- app_assoc.
    now destruct (passes f).
Qed.

(** A batch over the limit is refused whole. *)
Theorem validateFiles_over_limit maxFiles files :
  maxFiles < List.length files ->
  validateFiles maxFiles files = ([], [tooMany maxFiles]).
Proof.
  intros H. unfold validateFiles.
  apply Nat.ltb_lt in H. now rewrite H.
Qed.

(** A batch within the limit is filtered file by file, in order: a file
    passes when its size is at most 100 MB and its lower-cased name ends in
    ".bcf" or ".bcfzip", or is the bare word "bcf" or "bcfzip". *)
Theorem validateFiles_within_limit maxFiles files :
  List.length files <= maxFiles ->
  fst (validateFiles maxFiles files)
  = filter (fun f => (has_extension f || bare_name f)
                     && (size f <=? sizeLimit)%N) files.
Proof.
  intros H. unfold validateFiles.
  apply Nat.ltb_ge in H. rewrite H. rewrite validate_fold. simpl.
  apply filter_ext. intros f. unfold passes. now rewrite extension_test.
Qed.

Lemma validateFiles_over_limit_witness :
  validateFiles 2 [a_bcf; b_bcf; a_bcf_again] = ([], [tooMany 2]).
Proof.
  apply (validateFiles_over_limit 2 [a_bcf; b_bcf; a_bcf_again]).
  simpl. lia.
Defined.

Lemma validateFiles_within_limit_witness :
  let files := [a_bcf; {| name := "plan.pdf"; size := 7; content := 4 |};
                b_bcf] in
  fst (validateFiles defaultMaxFiles files)
  = filter (fun f => (has_extension f || bare_name f)
                     && (size f <=? sizeLimit)%N) files.
Proof.
  apply (validateFiles_within_limit defaultMaxFiles
           [a_bcf; {| name := "plan.pdf"; size := 7; content := 4 |}; b_bcf]).
  unfold defaultMaxFiles. simpl. lia.
Defined.

(** C10, at the input where the code departs from it: a file whose whole
    name is "bcf" has no extension, yet [split('.').pop()] returns the name
    itself, the test against "bcf" succeeds, and the file is accepted and
    handed to [onFilesAccepted]. *)
Theorem validateFiles_accepts_bare_name :
  let f := {| name := "bcf"; size := 1; content := 0 |} in
  has_dot (name f) = false /\
  has_extension f = false /\
  pop (split_dot (toLowerCase (name f))) = Some "bcf" /\
  validateFiles defaultMaxFiles [f] = ([f], []) /\
  handleFiles defaultMaxFiles false (Some [f]) None = (None, Some [f]).
Proof. cbv zeta. repeat split. Qed.

Example validateFiles_mixed :
  let ok1 := {| name := "Tower.BCF"; size := 10; content := 0 |} in
  let bad := {| name := "notes.txt"; size := 10; content := 0 |} in
  let big := {| name := "big.bcfzip"; size := 104857601; content := 0 |} in
  let ok2 := {| name := "site.v2.bcfzip"; size := 104857600; content := 0 |} in
  validateFiles defaultMaxFiles [ok1; bad; big; ok2]
  = ([ok1; ok2], [invalidType bad; tooLarge big]).
Proof. reflexivity. Qed.

Example validateFiles_eleven :
  let f := {| name := "a.bcf"; size := 10; content := 0 |} in
  validateFiles defaultMaxFiles (repeat f 11)
  = ([], ["Maximum 10 files allowed"]).
Proof. reflexivity. Qed.

End Dropzone.

(** ** The upload page: starting and settling inspections *)

Module UploadPage.

Import Store.

(** [Set<string>]: [new Set(prev).add(x)] and [newSet.delete(x)]. *)
Definition set_add (x : string) (s : list string) : list string :=
  if mem x s then s else s ++ [x].

Fixpoint set_delete (x : string) (s : list string) : list string :=
  match s with
  | [] => []
  | y :: s' => if String.eqb x y then s' else y :: set_delete x s'
  end.

(** The page: the store, the component's own [inspectingFiles] set, and the
    calls of [inspectFile] that stand at their [await], oldest first, each
    with the file it was called on. *)
Record Page : Type := {
  store : BCFState;
  inspectingFiles : list string;
  awaiting : list File
}.

Definition initialPage : Page :=
  {| store := initial; inspectingFiles := []; awaiting := [] |}.

Definition onStore (f : BCFState -> BCFState) (p : Page) : Page :=
  {| store := f (store p);
     inspectingFiles := inspectingFiles p;
     awaiting := awaiting p |}.

(** [inspectFile] up to its [await]. *)
Definition inspectFile_submit (f : File) (p : Page) : Page :=
  {| store := setIsInspecting true (store p);
     inspectingFiles := set_add (name f) (inspectingFiles p);
     awaiting := awaiting p ++ [f] |}.

(** How the awaited call ends: with the response's issues, or by throwing. *)
Inductive settlement : Type :=
| Fulfilled (iss : list BCFIssue)
| Rejected.

(** The [finally] block of [inspectFile]. *)
Definition inspectFile_finally (f : File) (p : Page) : Page :=
  {| store := setIsInspecting false (store p);
     inspectingFiles := set_delete (name f) (inspectingFiles p);
     awaiting := awaiting p |}.

(** [inspectFile] from its [await] on; the toasts are left out. *)
Definition inspectFile_resume (f : File) (r : settlement) (p : Page) : Page :=
  inspectFile_finally f
    match r with
    | Fulfilled iss => onStore (setFileIssues (name f) iss) p
    | Rejected => p
    end.

Definition handleFilesAccepted (files : list File) (p : Page) : Page :=
  fold_left (fun p f => inspectFile_submit f (onStore (addUploadedFile f) p))
    files p.

Definition handleRemoveFile (n : string) (p : Page) : Page :=
  onStore (removeFile n) p.

Definition handleClearAll (p : Page) : Page := onStore clearFiles p.

Fixpoint remove_nth {A : Type} (i : nat) (l : list A) : list A :=
  match l, i with
  | [], _ => []
  | _ :: l', O => l'
  | x :: l', S i' => x :: remove_nth i' l'
  end.

(** What can happen to the page.  Files reach it through the drop zone,
    which the page disables while [isInspecting] holds; [Settle i r] is the
    [i]-th awaited inspection ending with [r]; the remove button of a file is
    disabled while the file is in [inspectingFiles]. *)
Inductive event : Type :=
| Drop (files : list File)
| Settle (i : nat) (r : settlement)
| ClickRemove (n : string)
| ClickClearAll.

Definition step (e : event) (p : Page) : option Page :=
  match e with
  | Drop files =>
      match snd (Dropzone.handleFiles Dropzone.defaultMaxFiles
                   (isInspecting (store p)) (Some files) None) with
      | Some valid => Some (handleFilesAccepted valid p)
      | None => Some p
      end
  | Settle i r =>
      match nth_error (awaiting p) i with
      | Some f =>
          Some (inspectFile_resume f r
                  {| store := store p;
                     inspectingFiles := inspectingFiles p;
                     awaiting := remove_nth i (awaiting p) |})
      | None => None
      end
  | ClickRemove n =>
      if mem n (inspectingFiles p) then None
      else Some (handleRemoveFile n p)
  | ClickClearAll => Some (handleClearAll p)
  end.

Fixpoint run (es : list event) (p : Page) : option Page :=
  match es with
  | [] => Some p
  | e :: es' =>
      match step e p with
      | Some p' => run es' p'
      | None => None
      end
  end.

(** *** The busy flag *)

(** The reading of C2: the flag is up exactly when some inspection stands
    at its [await]. *)
Definition busy_iff_outstanding (p : Page) : Prop :=
  isInspecting (store p) = true <-> awaiting p <> [].

(** Submitting raises the flag; every settlement lowers it, whatever else is
    still awaited. *)
Lemma submit_raises f p : isInspecting (store (inspectFile_submit f p)) = true.
Proof. reflexivity. Qed.

Lemma resume_lowers f r p :
  isInspecting (store (inspectFile_resume f r p)) = false.
Proof. destruct r; reflexivity. Qed.

Lemma settle_lowers i r p p' :
  step (Settle i r) p = Some p' -> isInspecting (store p') = false.
Proof.
  simpl. destruct (nth_error (awaiting p) i); [|discriminate].
  intros H. injection H as <-. apply resume_lowers.
Qed.

(** C2, at the input where the code departs from it: a.bcf and b.bcf are
    dropped together, both inspections start, and a's settles first.  Its
    [finally] block runs [setIsInspecting(false)] while b's inspection is still
    awaited and b.bcf is still in [inspectingFiles]. *)
Theorem busy_flag_drops_with_inspection_outstanding :
  exists p1 p2,
    run [Drop [a_bcf; b_bcf]] initialPage = Some p1 /\
    isInspecting (store p1) = true /\
    awaiting p1 = [a_bcf; b_bcf] /\
    step (Settle 0 (Fulfilled a_issues)) p1 = Some p2 /\
    awaiting p2 = [b_bcf] /\
    inspectingFiles p2 = ["b.bcf"] /\
    isInspecting (store p2) = false /\
    ~ busy_iff_outstanding p2.
Proof.
  eexists. eexists.
  split; [reflexivity|]. split; [reflexivity|]. split; [reflexivity|].
  split; [reflexivity|]. split; [reflexivity|]. split; [reflexivity|].
  split; [reflexivity|].
  unfold busy_iff_outstanding. simpl. intros [_ H].
  assert (false = true) by (apply H; discriminate). discriminate.
Qed.

(** With the flag down the drop zone is live again, while b.bcf is still
    being inspected. *)
Example drop_accepted_during_inspection :
  exists p,
    run [Drop [a_bcf; b_bcf]; Settle 0 (Fulfilled a_issues); Drop [b_bcf]]
      initialPage = Some p /\
    awaiting p = [b_bcf; b_bcf].
Proof. eexists. split; reflexivity. Qed.

(** Two files of one name in a batch: the second registration replaces the
    first while the first inspection is awaited, and the first result is
    stored in the second file's entry. *)
Example late_result_in_one_batch :
  exists p,
    run [Drop [a_bcf; a_bcf_again]; Settle 0 (Fulfilled a_issues)] initialPage
      = Some p /\
    uploadedFiles (store p)
      = [("a.bcf", {| file := a_bcf_again; issues := a_issues;
                      inspected := true |})] /\
    awaiting p = [a_bcf_again].
Proof. eexists. repeat split. Qed.

(** The same file uploaded a second time after its inspection: until the
    second inspection settles, the entry is empty and the stored aggregate
    still lists the first inspection's issues. *)
Example second_upload_keeps_old_aggregate :
  exists p,
    run [Drop [a_bcf]; Settle 0 (Fulfilled a_issues); Drop [a_bcf]]
      initialPage = Some p /\
    map_get "a.bcf" (uploadedFiles (store p))
      = Some {| file := a_bcf; issues := []; inspected := false |} /\
    allIssues (store p) = a_issues.
Proof. eexists. repeat split. Qed.

End UploadPage.

(** ** The merge call: naming the download *)

Module Api.

Local Open Scope N_scope.

(** A JavaScript string as its UTF-16 code units.  A header value read
    through [headers.get] has every unit below 256; what
    [decodeURIComponent] returns may hold any unit. *)
Definition jsstring : Type := list N.

Definition lit (s : string) : jsstring :=
  map N_of_ascii (list_ascii_of_string s).

(** *** The two regular expressions *)

(** Both expressions carry the [i] flag and not the [u] flag, and their
    literal parts are ASCII.  Under these flags a unit above 127 is never
    folded onto an ASCII one, so comparing after folding a-z onto A-Z
    decides whether an input unit matches a pattern character. *)
Definition canonicalize (c : N) : N :=
  if (97 <=? c) && (c <=? 122) then c - 32 else c.

Definition ci_eq (p c : N) : bool := canonicalize p =? canonicalize c.

(** The literal [pat] at the head of [s]: what follows it. *)
Fixpoint match_literal (pat s : jsstring) : option jsstring :=
  match pat with
  | [] => Some s
  | p :: pat' =>
      match s with
      | c :: s' => if ci_eq p c then match_literal pat' s' else None
      | [] => None
      end
  end.

(** The longest prefix of units satisfying [ok]: a greedy [[...]*]. *)
Fixpoint span (ok : N -> bool) (s : jsstring) : jsstring :=
  match s with
  | c :: s' => if ok c then c :: span ok s' else []
  | [] => []
  end.

Definition semicolon : N := 59.
Definition quote : N := 34.
Definition percent : N := 37.

(** [/filename\*=UTF-8''([^;]+)/i] tried at the head of [s]: group 1. *)
Definition extended_at (s : jsstring) : option jsstring :=
  match match_literal (lit "filename*=UTF-8''") s with
  | Some rest =>
      match span (fun c => negb (c =? semicolon)) rest with
      | [] => None
      | capture => Some capture
      end
  | None => None
  end.

(** [/filename="?([^";]+)"?/i] tried at the head of [s]: group 1.  The
    optional quote is taken when it is there; giving it back would leave the
    class, which excludes the quote, to start on it, so no second try can
    succeed.  The closing ["?] matches either way and is outside the group. *)
Definition plain_at (s : jsstring) : option jsstring :=
  match match_literal (lit "filename=") s with
  | Some rest =>
      let rest' := match rest with
                   | c :: r => if c =? quote then r else rest
                   | [] => rest
                   end in
      match span (fun c => negb ((c =? quote) || (c =? semicolon))) rest' with
      | [] => None
      | capture => Some capture
      end
  | None => None
  end.

(** [re.exec(s)] for an expression without the [g] flag: the first position,
    from the left, at which the expression matches. *)
Fixpoint exec (re_at : jsstring -> option jsstring) (s : jsstring)
    : option jsstring :=
  match re_at s with
  | Some capture => Some capture
  | None =>
      match s with
      | [] => None
      | _ :: s' => exec re_at s'
      end
  end.

(** *** [decodeURIComponent] *)

Definition hexval (c : N) : option N :=
  if (48 <=? c) && (c <=? 57) then Some (c - 48)
  else if (65 <=? c) && (c <=? 70) then Some (c - 55)
  else if (97 <=? c) && (c <=? 102) then Some (c - 87)
  else None.

(** The two hex digits after a percent sign. *)
Definition octet (h1 h2 : N) : option N :=
  match hexval h1, hexval h2 with
  | Some a, Some b => Some (16 * a + b)
  | _, _ => None
  end.

(** A further escape [%XX] of a multi-byte sequence: its octet, which must be
    a continuation byte; the six bits it carries. *)
Definition continuation (p h1 h2 : N) : option N :=
  if p =? percent then
    match octet h1 h2 with
    | Some b => if (128 <=? b) && (b <? 192) then Some (b - 128) else None
    | None => None
    end
  else None.

(** A decoded scalar is kept when it is in the range of its length (no
    overlong form), is no surrogate and is at most U+10FFFF. *)
Definition scalar (least v : N) : option N :=
  if (least <=? v) && negb ((55296 <=? v) && (v <=? 57343)) && (v <=? 1114111)
  then Some v else None.

Definition utf16 (v : N) : jsstring :=
  if v <? 65536 then [v]
  else [55296 + (v - 65536) / 1024; 56320 + (v - 65536) mod 1024].

Definition emit (v : option N) (tail : option jsstring) : option jsstring :=
  match v, tail with
  | Some v, Some t => Some (utf16 v ++ t)
  | _, _ => None
  end.

(** [None] is a thrown [URIError]. *)
Fixpoint decodeURIComponent (s : jsstring) : option jsstring :=
  match s with
  | [] => Some []
  | c :: rest =>
      if negb (c =? percent) then option_map (cons c) (decodeURIComponent rest)
      else
        match rest with
        | h1 :: h2 :: r0 =>
            match octet h1 h2 with
            | None => None
            | Some b =>
                if b <? 128 then option_map (cons b) (decodeURIComponent r0)
                else if b <? 192 then None
                else if b <? 224 then
                  match r0 with
                  | p1 :: x1 :: y1 :: r1 =>
                      match continuation p1 x1 y1 with
                      | Some b1 =>
                          emit (scalar 128 ((b - 192) * 64 + b1))
                            (decodeURIComponent r1)
                      | None => None
                      end
                  | _ => None
                  end
                else if b <? 240 then
                  match r0 with
                  | p1 :: x1 :: y1 :: p2 :: x2 :: y2 :: r2 =>
                      match continuation p1 x1 y1, continuation p2 x2 y2 with
                      | Some b1, Some b2 =>
                          emit (scalar 2048 ((b - 224) * 4096 + b1 * 64 + b2))
                            (decodeURIComponent r2)
                      | _, _ => None
                      end
                  | _ => None
                  end
                else if b <? 248 then
                  match r0 with
                  | p1 :: x1 :: y1 :: p2 :: x2 :: y2 :: p3 :: x3 :: y3 :: r3 =>
                      match continuation p1 x1 y1, continuation p2 x2 y2,
                            continuation p3 x3 y3 with
                      | Some b1, Some b2, Some b3 =>
                          emit (scalar 65536
                                  ((b - 240) * 262144 + b1 * 4096
                                   + b2 * 64 + b3))
                            (decodeURIComponent r3)
                      | _, _, _ => None
                      end
                  | _ => None
                  end
                else None
            end
        | _ => None
        end
  end.

(** *** [mergeBcfs]: the name it returns *)

Definition defaultName : jsstring := lit "merged.bcfzip".

(** [header] is [response.headers.get('Content-Disposition')], [None] for
    null. *)
Definition mergeBcfs_filename (header : option jsstring) : jsstring :=
  let disposition := match header with Some h => h | None => [] end in
  let matched :=
    match exec extended_at disposition with
    | Some capture => Some capture
    | None => exec plain_at disposition
    end in
  match matched with
  | Some ((_ :: _) as capture) =>
      match decodeURIComponent capture with
      | Some decoded => decoded
      | None => capture
      end
  | _ => defaultName
  end.

(** *** What the pieces guarantee *)

Lemma utf16_nonempty v : utf16 v <> [].
Proof. unfold utf16. destruct (v <? 65536); discriminate. Qed.

Lemma emit_nonempty v t r : emit v t = Some r -> r <> [].
Proof.
  destruct v as [v|], t as [t|]; simpl; try discriminate.
  intros H. injection H as <-. pose proof (utf16_nonempty v) as Hv.
  destruct (utf16 v); [congruence|discriminate].
Qed.

Lemma cons_nonempty (c : N) (t : option jsstring) r :
  option_map (cons c) t = Some r -> r <> [].
Proof.
  destruct t; simpl; [|discriminate]. intros H. injection H as <-.
  discriminate.
Qed.

Ltac break_match :=
  match goal with
  | |- context [match ?x with _ => _ end] => destruct x
  end.

(** Decoding a string that is not empty never yields the empty string. *)
Lemma decode_nonempty c s r :
  decodeURIComponent (c :: s) = Some r -> r <> [].
Proof.
  cbn [decodeURIComponent].
  repeat first
    [ discriminate
    | apply cons_nonempty
    | apply emit_nonempty
    | break_match ].
Qed.

Lemma span_split ok s :
  exists rest,
    s = span ok s ++ rest /\
    forallb ok (span ok s) = true /\
    match rest with c :: _ => ok c = false | [] => True end.
Proof.
  induction s as [|c s (rest & Hs & Hall & Hrest)]; simpl.
  - exists []. repeat split.
  - destruct (ok c) eqn:Ec.
    + exists rest. simpl. rewrite Ec, Hall. repeat split; [|exact Hrest].
      now rewrite <- Hs.
    + exists (c :: s). repeat split. exact Ec.
Qed.

(** A literal matches a prefix that equals it up to the case of letters. *)
Lemma match_literal_spec pat : forall s rest,
  match_literal pat s = Some rest <->
  exists l, s = l ++ rest /\ map canonicalize l = map canonicalize pat.
Proof.
  induction pat as [|p pat IH]; intros s rest; simpl.
  - split.
    + intros H. injection H as ->. now exists [].
    + intros (l & -> & Hl). destruct l; [reflexivity|discriminate].
  - destruct s as [|c s].
    + split; [discriminate|].
      intros (l & Hs & Hl). destruct l; discriminate.
    + unfold ci_eq. destruct (canonicalize p =? canonicalize c) eqn:E.
      * apply N.eqb_eq in E. rewrite IH. split.
        -- intros (l & -> & Hl). exists (c :: l). simpl.
           now rewrite Hl, E.
        -- intros (l & Hs & Hl). destruct l as [|c' l]; [discriminate|].
           simpl in Hs, Hl. injection Hs as -> ->. injection Hl as _ Hl.
           now exists l.
      * apply N.eqb_neq in E. split; [discriminate|].
        intros (l & Hs & Hl). destruct l as [|c' l]; [discriminate|].
        simpl in Hs, Hl. injection Hs as -> ->. injection Hl as Hc _.
        congruence.
Qed.

Lemma match_literal_prefix p1 p2 s :
  match_literal p1 s = None -> match_literal (p1 ++ p2) s = None.
Proof.
  revert s. induction p1 as [|p p1 IH]; intros s; simpl; [discriminate|].
  destruct s as [|c s]; [reflexivity|].
  destruct (ci_eq p c); [apply IH|reflexivity].
Qed.

(** What a match of the extended form is: the literal in any case, then the
    capture, which is every unit up to the next semicolon or the end and is
    not empty. *)
Lemma extended_at_sound s capture :
  extended_at s = Some capture ->
  exists l rest,
    s = l ++ capture ++ rest /\
    map canonicalize l = map canonicalize (lit "filename*=UTF-8''") /\
    capture <> [] /\
    forallb (fun c => negb (c =? semicolon)) capture = true /\
    match rest with c :: _ => c = semicolon | [] => True end.
Proof.
  unfold extended_at.
  destruct (match_literal (lit "filename*=UTF-8''") s) as [r|] eqn:E;
    [|discriminate].
  apply match_literal_spec in E as (l & -> & Hl).
  destruct (span_split (fun c => negb (c =? semicolon)) r)
    as (rest & Hr & Hall & Hrest).
  destruct (span (fun c => negb (c =? semicolon)) r) as [|c cs] eqn:Es;
    [discriminate|].
  intros H. injection H as <-.
  exists l, rest.
  split; [now rewrite <- Hr|]. split; [exact Hl|].
  split; [discriminate|]. split; [exact Hall|].
  destruct rest as [|c' rest]; [exact I|].
  apply negb_false_iff in Hrest. now apply N.eqb_eq in Hrest.
Qed.

(** What a match of the plain form is: the literal in any case, a quote or
    none, then the capture, which is every unit up to the next quote or
    semicolon or the end and is not empty. *)
Lemma plain_at_sound s capture :
  plain_at s = Some capture ->
  exists l q rest,
    s = l ++ q ++ capture ++ rest /\
    map canonicalize l = map canonicalize (lit "filename=") /\
    (q = [] \/ q = [quote]) /\
    capture <> [] /\
    forallb (fun c => negb ((c =? quote) || (c =? semicolon))) capture = true /\
    match rest with
    | c :: _ => c = quote \/ c = semicolon
    | [] => True
    end.
Proof.
  unfold plain_at.
  destruct (match_literal (lit "filename=") s) as [r|] eqn:E; [|discriminate].
  apply match_literal_spec in E as (l & -> & Hl).
  set (r' := match r with
             | c :: r0 => if c =? quote then r0 else r
             | [] => r
             end).
  assert (Hq : exists q, r = q ++ r' /\ (q = [] \/ q = [quote])).
  { subst r'. destruct r as [|c r0]; [exists []; auto|].
    destruct (c =? quote) eqn:Ec.
    - apply N.eqb_eq in Ec. subst c. exists [quote]. auto.
    - exists []. auto. }
  destruct Hq as (q & Hr & Hq).
  destruct (span_split (fun c => negb ((c =? quote) || (c =? semicolon))) r')
    as (rest & Hr' & Hall & Hrest).
  destruct (span (fun c => negb ((c =? quote) || (c =? semicolon))) r')
    as [|c cs] eqn:Es; [discriminate|].
  intros H. injection H as <-.
  exists l, q, rest.
  split; [now rewrite <- Hr', <- Hr|]. split; [exact Hl|].
  split; [exact Hq|]. split; [discriminate|]. split; [exact Hall|].
  destruct rest as [|c' rest]; [exact I|].
  apply negb_false_iff, orb_true_iff in Hrest.
  destruct Hrest as [H|H]; apply N.eqb_eq in H; auto.
Qed.

(** [exec] returns the capture of the leftmost position that matches. *)
Lemma exec_sound re_at s capture :
  exec re_at s = Some capture ->
  exists pre suf,
    s = pre ++ suf /\ re_at suf = Some capture /\
    forall pre' suf',
      s = pre' ++ suf' -> (List.length pre' < List.length pre)%nat ->
      re_at suf' = None.
Proof.
  induction s as [|c s IH]; simpl.
  - destruct (re_at []) eqn:E; [|discriminate].
    intros H. injection H as ->. exists [], []. repeat split; [exact E|].
    simpl. intros. lia.
  - destruct (re_at (c :: s)) eqn:E.
    + intros H. injection H as ->. exists [], (c :: s).
      repeat split; [exact E|]. simpl. intros. lia.
    + intros H. destruct (IH H) as (pre & suf & -> & Hsuf & Hleft).
      exists (c :: pre), suf. repeat split; [exact Hsuf|].
      intros pre' suf' Hs Hlen. destruct pre' as [|c' pre'].
      * simpl in Hs. now subst suf'.
      * simpl in Hs, Hlen. injection Hs as _ Hs.
        apply (Hleft pre' suf' Hs). lia.
Qed.

Lemma exec_none re_at s :
  exec re_at s = None <-> forall pre suf, s = pre ++ suf -> re_at suf = None.
Proof.
  induction s as [|c s IH]; simpl.
  - destruct (re_at []) eqn:E; split; try discriminate; try reflexivity.
    + intros H. specialize (H [] [] eq_refl). congruence.
    + intros _ pre suf Hs. symmetry in Hs. apply app_eq_nil in Hs as [_ ->].
      exact E.
  - destruct (re_at (c :: s)) eqn:E; split; try discriminate.
    + intros H. specialize (H [] (c :: s) eq_refl). congruence.
    + intros H pre suf Hs. destruct pre as [|c' pre].
      * simpl in Hs. now subst suf.
      * simpl in Hs. injection Hs as _ Hs.
        apply (proj1 IH H pre suf Hs).
    + intros H. apply IH. intros pre suf Hs.
      apply (H (c :: pre) suf). simpl. now rewrite Hs.
Qed.

(** The word "filename", in any case, somewhere in the value. *)
Definition mentions_filename (s : jsstring) : bool :=
  match exec (fun t => match match_literal (lit "filename") t with
                       | Some _ => Some []
                       | None => None
                       end) s with
  | Some _ => true
  | None => false
  end.

Lemma no_mention_no_match s :
  mentions_filename s = false ->
  exec extended_at s = None /\ exec plain_at s = None.
Proof.
  unfold mentions_filename.
  destruct (exec _ s) eqn:E; [discriminate|]. intros _.
  assert (H : forall pre suf, s = pre ++ suf ->
                match_literal (lit "filename") suf = None).
  { intros pre suf Hs. pose proof (proj1 (exec_none _ s) E pre suf Hs) as H.
    cbv beta in H. now destruct (match_literal (lit "filename") suf). }
  split; apply exec_none; intros pre suf Hs.
  - unfold extended_at.
    change (lit "filename*=UTF-8''") with (lit "filename" ++ lit "*=UTF-8''").
    now rewrite (match_literal_prefix _ _ _ (H pre suf Hs)).
  - unfold plain_at.
    change (lit "filename=") with (lit "filename" ++ lit "=").
    now rewrite (match_literal_prefix _ _ _ (H pre suf Hs)).
Qed.

Lemma exec_nonempty_extended s capture :
  exec extended_at s = Some capture -> capture <> [].
Proof.
  intros H. apply exec_sound in H as (pre & suf & _ & H & _).
  now apply extended_at_sound in H as (l & rest & _ & _ & Hc & _).
Qed.

Lemma exec_nonempty_plain s capture :
  exec plain_at s = Some capture -> capture <> [].
Proof.
  intros H. apply exec_sound in H as (pre & suf & _ & H & _).
  now apply plain_at_sound in H as (l & q & rest & _ & _ & _ & Hc & _).
Qed.

(** When decoding throws, the capture is used as it stands. *)
Definition decoded_or_raw (capture : jsstring) : jsstring :=
  match decodeURIComponent capture with
  | Some decoded => decoded
  | None => capture
  end.

Lemma decoded_or_raw_nonempty capture :
  capture <> [] -> decoded_or_raw capture <> [].
Proof.
  unfold decoded_or_raw. destruct capture as [|c s]; [congruence|]. intros _.
  destruct (decodeURIComponent (c :: s)) eqn:E; [|discriminate].
  now apply decode_nonempty in E.
Qed.

(** The name [mergeBcfs] returns, by which form is found in the header. *)
Lemma mergeBcfs_filename_cases header :
  mergeBcfs_filename header =
  let disposition := match header with Some h => h | None => [] end in
  match exec extended_at disposition with
  | Some capture => decoded_or_raw capture
  | None =>
      match exec plain_at disposition with
      | Some capture => decoded_or_raw capture
      | None => defaultName
      end
  end.
Proof.
  unfold mergeBcfs_filename. cbv zeta.
  set (d := match header with Some h => h | None => [] end).
  destruct (exec extended_at d) as [c|] eqn:E1.
  - pose proof (exec_nonempty_extended _ _ E1).
    destruct c; [congruence|reflexivity].
  - destruct (exec plain_at d) as [c|] eqn:E2; [|reflexivity].
    pose proof (exec_nonempty_plain _ _ E2).
    destruct c; [congruence|reflexivity].
Qed.

Lemma mergeBcfs_filename_nonempty header : mergeBcfs_filename header <> [].
Proof.
  rewrite mergeBcfs_filename_cases. cbv zeta.
  set (d := match header with Some h => h | None => [] end).
  destruct (exec extended_at d) as [c|] eqn:E1.
  - apply decoded_or_raw_nonempty. now apply exec_nonempty_extended in E1.
  - destruct (exec plain_at d) as [c|] eqn:E2; [|discriminate].
    apply decoded_or_raw_nonempty. now apply exec_nonempty_plain in E2.
Qed.

(** *** [ensureSuccess] and [mergeBcfs] *)

(** What a call returns or throws. *)
Inductive result (A : Type) : Type :=
| Returned (a : A)
| Thrown (message : string).

Arguments Returned {A} a.
Arguments Thrown {A} message.

(** The parts of a [Response] the client reads.  [detail] is the [detail]
    field of the body read as JSON, when the body parses and the field is a
    string. *)
Record Response : Type := {
  ok : bool;
  statusText : string;
  detail : option string;
  contentDisposition : option jsstring;
  body : N
}.

(** [a || b] on strings. *)
Definition or_else (a b : string) : string :=
  match a with EmptyString => b | _ => a end.

Definition ensureSuccess (response : Response) : result Response :=
  if ok response then Returned response
  else
    let message := "Une erreur inattendue est survenue."%string in
    let message :=
      match detail response with Some d => d | None => message end in
    let message :=
      match statusText response with
      | EmptyString => message
      | _ => or_else message (statusText response)
      end in
    Thrown (or_else message "Requête échouée.").

(** [mergeBcfs] once [fetch] has settled; a [fetch] that rejects is rethrown
    as it is. *)
Definition mergeBcfs (fetched : result Response) : result (N * jsstring) :=
  match fetched with
  | Thrown e => Thrown e
  | Returned fetchResponse =>
      match ensureSuccess fetchResponse with
      | Thrown e => Thrown e
      | Returned response =>
          Returned (body response,
                    mergeBcfs_filename (contentDisposition response))
      end
  end.

End Api.

(** ** The issues page: [handleMerge] *)

Module IssuesPage.

Import Store Api.

(** What the handler does besides updating the store. *)
Inductive effect : Type :=
| ToastError (title : string) (description : option string)
| ToastSuccess (title : string) (description : option string)
| ConsoleError (label : string)
| MergeRequest (files : list File)
| Download (filename : jsstring) (blob : N).

(** [handleMerge] up to its [await]: the call of [apiClient.mergeBcfs] is
    the [MergeRequest]. *)
Definition handleMerge_start (s : BCFState) : BCFState * list effect :=
  let files := map file (map_values (uploadedFiles s)) in
  if (List.length files <? 2)%nat then
    (s, [ToastError "Need at least 2 files to merge" None])
  else
    (setIsMerging true s, [MergeRequest files]).

Definition decimal (n : N) : string :=
  NilEmpty.string_of_uint (N.to_uint n).

(** [`merged-${Date.now()}.bcfzip`] *)
Definition timestampName (now : N) : jsstring :=
  lit "merged-" ++ lit (decimal now) ++ lit ".bcfzip".

(** [filename || `merged-${Date.now()}.bcfzip`] *)
Definition downloadName (now : N) (filename : jsstring) : jsstring :=
  match filename with
  | [] => timestampName now
  | _ => filename
  end.

(** [handleMerge] from its [await] on; [now] is what [Date.now()] returns. *)
Definition handleMerge_resume (now : N) (r : result (N * jsstring))
    (s : BCFState) : BCFState * list effect :=
  (setIsMerging false s,
   match r with
   | Returned (blob, filename) =>
       [Download (downloadName now filename) blob;
        ToastSuccess "BCF files merged successfully"
          (Some "Download started automatically"%string)]
   | Thrown message =>
       [ConsoleError "Failed to merge BCFs:";
        ToastError "Failed to merge BCF files" (Some message)]
   end).

(** *** Merging needs two archives *)

Definition is_request (e : effect) : bool :=
  match e with MergeRequest _ => true | _ => false end.

(** C6: with fewer than two archives registered, [handleMerge] reports the
    validation failure and stops: the store is returned as it was (so
    [uploadedFiles], [allIssues] and [isMerging] are unchanged), the only
    effect is the error toast, and no request is sent. *)
Theorem handleMerge_needs_two_archives s :
  map_size (uploadedFiles s) < 2 ->
  handleMerge_start s
    = (s, [ToastError "Need at least 2 files to merge" None]) /\
  uploadedFiles (fst (handleMerge_start s)) = uploadedFiles s /\
  allIssues (fst (handleMerge_start s)) = allIssues s /\
  isMerging (fst (handleMerge_start s)) = isMerging s /\
  existsb is_request (snd (handleMerge_start s)) = false.
Proof.
  intros H. unfold handleMerge_start, map_size, map_values in *.
  rewrite !length_map.
  apply Nat.ltb_lt in H. rewrite H. repeat split.
Qed.

Lemma handleMerge_needs_two_archives_witness :
  let s := Store.run [Register a_bcf; ApplyResult "a.bcf" a_issues] initial in
  handleMerge_start s
    = (s, [ToastError "Need at least 2 files to merge" None]) /\
  uploadedFiles (fst (handleMerge_start s)) = uploadedFiles s /\
  allIssues (fst (handleMerge_start s)) = allIssues s /\
  isMerging (fst (handleMerge_start s)) = isMerging s /\
  existsb is_request (snd (handleMerge_start s)) = false.
Proof.
  apply (handleMerge_needs_two_archives
           (Store.run [Register a_bcf; ApplyResult "a.bcf" a_issues] initial)).
  simpl. lia.
Defined.

Example handleMerge_empty_registry :
  handleMerge_start initial
  = (initial, [ToastError "Need at least 2 files to merge" None]).
Proof. reflexivity. Qed.

Example handleMerge_two_archives :
  handleMerge_start (Store.run [Register a_bcf; Register b_bcf] initial)
  = (setIsMerging true (Store.run [Register a_bcf; Register b_bcf] initial),
     [MergeRequest [a_bcf; b_bcf]]).
Proof. reflexivity. Qed.

(** *** The name of the download *)

(** The name given to the download for a successful response with header
    [header]. *)
Definition suggestedName (now : N) (header : option jsstring) : jsstring :=
  downloadName now (mergeBcfs_filename header).

Lemma suggestedName_effect now response s :
  ok response = true ->
  snd (handleMerge_resume now (mergeBcfs (Returned response)) s)
  = [Download (suggestedName now (contentDisposition response))
       (body response);
     ToastSuccess "BCF files merged successfully"
       (Some "Download started automatically"%string)].
Proof.
  intros H. unfold handleMerge_resume, mergeBcfs, ensureSuccess.
  now rewrite H.
Qed.

Lemma suggestedName_is_filename now header :
  suggestedName now header = mergeBcfs_filename header.
Proof.
  pose proof (mergeBcfs_filename_nonempty header) as Hne.
  unfold suggestedName, downloadName.
  destruct (mergeBcfs_filename header); [congruence|reflexivity].
Qed.

(** The reading of C8 for a response without the header: the download gets
    the time-stamped name. *)
Definition absent_header_gets_timestamp : Prop :=
  forall now, suggestedName now None = timestampName now.

(** C8 fails: without the header [mergeBcfs] returns "merged.bcfzip", which
    is not empty, so [handleMerge] never reaches its time-stamped name. *)
Lemma absent_header_gets_fixed_name :
  suggestedName 1700000000000 None = lit "merged.bcfzip" /\
  timestampName 1700000000000 = lit "merged-1700000000000.bcfzip" /\
  suggestedName 1700000000000 None <> timestampName 1700000000000 /\
  ~ absent_header_gets_timestamp.
Proof.
  split; [reflexivity|]. split; [reflexivity|]. split; [discriminate|].
  intros H. specialize (H 1700000000000%N). discriminate.
Qed.

(** C8 as the code has it: the extended form is looked for first, anywhere
    in the header, and the plain form only if the extended one is not found;
    the captured text is percent-decoded, and used undecoded if decoding
    throws; with neither form (or no header) the name is the fixed
    "merged.bcfzip".  The name is never empty, so the time-stamped name of
    [handleMerge] is never used. *)
Theorem suggestedName_by_form now header :
  suggestedName now header
  = (let disposition := match header with Some h => h | None => [] end in
     match exec extended_at disposition with
     | Some capture => decoded_or_raw capture
     | None =>
         match exec plain_at disposition with
         | Some capture => decoded_or_raw capture
         | None => lit "merged.bcfzip"
         end
     end) /\
  suggestedName now header = mergeBcfs_filename header /\
  suggestedName now header <> [].
Proof.
  rewrite suggestedName_is_filename.
  split; [apply mergeBcfs_filename_cases|]. split; [reflexivity|].
  apply mergeBcfs_filename_nonempty.
Qed.

(** A header that does not mention "filename" in any case has neither
    form. *)
Theorem suggestedName_no_mention now h :
  mentions_filename h = false ->
  suggestedName now (Some h) = lit "merged.bcfzip".
Proof.
  intros H. destruct (no_mention_no_match h H) as [H1 H2].
  rewrite suggestedName_is_filename, mergeBcfs_filename_cases.
  cbv zeta. now rewrite H1, H2.
Qed.

Lemma suggestedName_no_mention_witness :
  suggestedName 1700000000000 (Some (lit "attachment; name=x.bcfzip"))
  = lit "merged.bcfzip".
Proof.
  apply (suggestedName_no_mention 1700000000000
           (lit "attachment; name=x.bcfzip")).
  reflexivity.
Defined.

Example name_extended_preferred :
  suggestedName 1700000000000
    (Some (lit "attachment; filename=" ++ [quote] ++ lit "plain.bcfzip"
           ++ [quote] ++ lit "; filename*=UTF-8''na%C3%AFve%20merge.bcfzip"))
  = lit "na" ++ [239%N] ++ lit "ve merge.bcfzip".
Proof. reflexivity. Qed.

Example name_plain_quoted :
  suggestedName 1700000000000
    (Some (lit "attachment; FileName=" ++ [quote] ++ lit "site merge.bcfzip"
           ++ [quote]))
  = lit "site merge.bcfzip".
Proof. reflexivity. Qed.

Example name_undecodable_kept_raw :
  suggestedName 1700000000000
    (Some (lit "attachment; filename*=UTF-8''100%.bcfzip"))
  = lit "100%.bcfzip".
Proof. reflexivity. Qed.

Example name_no_form :
  suggestedName 1700000000000 (Some (lit "attachment"))
  = lit "merged.bcfzip".
Proof. reflexivity. Qed.

End IssuesPage.

(** ** How the store's operations compose *)

Module StoreLaws.

Import Store.

Section MapLaws.
Context {V : Type}.

Lemma set_set_same k (v1 v2 : V) m :
  map_set k v2 (map_set k v1 m) = map_set k v2 m.
Proof.
  induction m as [|[k' v'] m IH]; simpl.
  - now rewrite String.eqb_refl.
  - destruct (String.eqb k k') eqn:E; simpl.
    + now rewrite String.eqb_refl.
    + now rewrite E, IH.
Qed.

Lemma delete_set k (v : V) m : map_delete k (map_set k v m) = map_delete k m.
Proof.
  induction m as [|[k' v'] m IH]; simpl.
  - now rewrite String.eqb_refl.
  - destruct (String.eqb k k') eqn:E; simpl.
    + now rewrite String.eqb_refl.
    + now rewrite E, IH.
Qed.

Lemma delete_absent k (m : JsMap.t V) :
  map_get k m = None -> map_delete k m = m.
Proof.
  induction m as [|[k' v'] m IH]; simpl; [reflexivity|].
  destruct (String.eqb k k'); [discriminate|].
  intros H. now rewrite IH.
Qed.

Lemma delete_delete a b (m : JsMap.t V) :
  map_delete a (map_delete b m) = map_delete b (map_delete a m).
Proof.
  induction m as [|[k v] m IH]; simpl; [reflexivity|].
  destruct (String.eqb b k) eqn:Eb, (String.eqb a k) eqn:Ea; simpl;
    rewrite ?Ea, ?Eb; try reflexivity.
  - apply String.eqb_eq in Ea, Eb. now subst.
  - now rewrite IH.
Qed.

End MapLaws.

(** A second result for a name overwrites the first: of two results applied
    under one name only the later one counts. *)
Theorem setFileIssues_last_wins n i1 i2 s :
  setFileIssues n i2 (setFileIssues n i1 s) = setFileIssues n i2 s.
Proof.
  unfold setFileIssues. simpl.
  destruct (map_get n (uploadedFiles s)) as [fd|] eqn:E.
  - rewrite get_set_same. simpl. now rewrite set_set_same.
  - now rewrite E.
Qed.

(** Removing an archive throws away whatever result was stored for it:
    applying a result and then removing gives the state that removing alone
    gives. *)
Theorem removeFile_forgets_result n iss s :
  removeFile n (setFileIssues n iss s) = removeFile n s.
Proof.
  unfold removeFile, setFileIssues. simpl.
  destruct (map_get n (uploadedFiles s)) as [fd|]; [|reflexivity].
  now rewrite delete_set.
Qed.

(** Registering a new name and removing it again leaves the registry as it
    was. *)
Theorem register_then_remove f s :
  map_get (name f) (uploadedFiles s) = None ->
  uploadedFiles (removeFile (name f) (addUploadedFile f s)) = uploadedFiles s.
Proof.
  intros H. simpl. rewrite delete_set. now apply delete_absent.
Qed.

Lemma register_then_remove_witness :
  uploadedFiles
    (removeFile (name b_bcf)
       (addUploadedFile b_bcf (run [Register a_bcf] initial)))
  = uploadedFiles (run [Register a_bcf] initial).
Proof.
  apply (register_then_remove b_bcf (run [Register a_bcf] initial)).
  reflexivity.
Defined.

(** Removing a name that is not registered changes no entry; the aggregate
    is recomputed from the same map. *)
Theorem removeFile_unregistered n s :
  map_get n (uploadedFiles s) = None ->
  uploadedFiles (removeFile n s) = uploadedFiles s /\
  allIssues (removeFile n s) = concatIssues (uploadedFiles s).
Proof.
  intros H. simpl. rewrite collectIssues_concat.
  now rewrite delete_absent by exact H.
Qed.

Lemma removeFile_unregistered_witness :
  let s := run [Register a_bcf; ApplyResult "a.bcf" a_issues] initial in
  uploadedFiles (removeFile "gone.bcf" s) = uploadedFiles s /\
  allIssues (removeFile "gone.bcf" s) = concatIssues (uploadedFiles s).
Proof.
  apply (removeFile_unregistered "gone.bcf"
           (run [Register a_bcf; ApplyResult "a.bcf" a_issues] initial)).
  reflexivity.
Defined.

(** Registering a name again keeps the entry's place, but removing it first
    and then registering puts it last: the archive moves to the end of the
    map, and so do its issues in the aggregate once they arrive. *)
Theorem remove_then_register_goes_last f s :
  wf (uploadedFiles s) = true ->
  uploadedFiles (addUploadedFile f (removeFile (name f) s))
  = map_delete (name f) (uploadedFiles s)
    ++ [(name f, {| file := f; issues := []; inspected := false |})].
Proof.
  intros H. simpl. apply keys_set_absent.
  unfold map_has. now rewrite get_delete_same.
Qed.

Lemma remove_then_register_goes_last_witness :
  let s := run [Register a_bcf; Register b_bcf] initial in
  uploadedFiles (addUploadedFile a_bcf (removeFile (name a_bcf) s))
  = map_delete (name a_bcf) (uploadedFiles s)
    ++ [(name a_bcf, {| file := a_bcf; issues := []; inspected := false |})].
Proof.
  apply (remove_then_register_goes_last a_bcf
           (run [Register a_bcf; Register b_bcf] initial)).
  reflexivity.
Defined.

Example reupload_order :
  map_keys (uploadedFiles
              (run [Register a_bcf; Register b_bcf; Register a_bcf_again]
                 initial)) = ["a.bcf"; "b.bcf"] /\
  map_keys (uploadedFiles
              (run [Register a_bcf; Register b_bcf; Remove "a.bcf";
                    Register a_bcf_again] initial)) = ["b.bcf"; "a.bcf"].
Proof. split; reflexivity. Qed.

(** Two removals can be made in either order. *)
Theorem removeFile_either_order a b s :
  removeFile a (removeFile b s) = removeFile b (removeFile a s).
Proof.
  unfold removeFile. simpl. now rewrite delete_delete.
Qed.

End StoreLaws.

(** ** What the upload page keeps true *)

Module UploadPageLaws.

Import Store UploadPage.

(** The page's derived values:
    [Array.from(uploadedFiles.values())], the sum of the issue counts, and
    whether the "Inspection Complete" panel may show. *)
Definition filesArray (p : Page) : list UploadedFile :=
  map_values (uploadedFiles (store p)).

Definition totalIssues (p : Page) : nat :=
  fold_left (fun sum fd => sum + List.length (issues fd)) (filesArray p) 0.

Definition allInspected (p : Page) : bool :=
  (0 <? List.length (filesArray p))%nat && forallb inspected (filesArray p).

Lemma sum_from (l : list UploadedFile) : forall acc,
  fold_left (fun sum fd => sum + List.length (issues fd)) l acc
  = acc + List.length (List.concat (map issues l)).
Proof.
  induction l as [|fd l IH]; intros acc; simpl; [lia|].
  rewrite IH, length_app. lia.
Qed.

(** The total the upload page shows is the number of entries of the stored
    aggregate (which the issues page shows) whenever the aggregate agrees
    with the registry; issues are counted per archive, never merged. *)
Theorem totalIssues_counts_aggregate p :
  aggregate_fresh (store p) ->
  totalIssues p = List.length (allIssues (store p)).
Proof.
  unfold aggregate_fresh, totalIssues, filesArray. intros ->.
  now rewrite sum_from.
Qed.

Lemma totalIssues_counts_aggregate_witness :
  exists p,
    UploadPage.run [Drop [a_bcf; b_bcf]; Settle 1 (Fulfilled b_issues);
                    Settle 0 (Fulfilled a_issues)] initialPage = Some p /\
    totalIssues p = List.length (allIssues (store p)) /\
    totalIssues p = 5.
Proof.
  eexists. split; [reflexivity|]. split; [|reflexivity].
  apply totalIssues_counts_aggregate. reflexivity.
Defined.

(** *** Invariants of the page *)

Lemma run_invariant (Inv : Page -> Prop) :
  Inv initialPage ->
  (forall e p p', Inv p -> step e p = Some p' -> Inv p') ->
  forall es p', UploadPage.run es initialPage = Some p' -> Inv p'.
Proof.
  intros H0 Hstep es.
  enough (G : forall p p', Inv p -> UploadPage.run es p = Some p' -> Inv p')
    by (intros p'; now apply G).
  induction es as [|e es IH]; intros p p' Hp; simpl.
  - intros H. injection H as <-. exact Hp.
  - destruct (step e p) as [p1|] eqn:E; [|discriminate].
    apply IH. now apply (Hstep e p).
Qed.

Lemma awaiting_accepted files : forall p,
  awaiting (handleFilesAccepted files p) = awaiting p ++ files.
Proof.
  unfold handleFilesAccepted.
  induction files as [|f files IH]; intros p; simpl.
  - now rewrite app_nil_r.
  - rewrite IH. simpl. now rewrite <- app_assoc.
Qed.

Lemma flag_accepted files : forall p,
  files <> [] -> isInspecting (store (handleFilesAccepted files p)) = true.
Proof.
  unfold handleFilesAccepted.
  induction files as [|f files IH]; intros p H; [congruence|]. simpl.
  destruct files as [|g files]; [reflexivity|].
  apply IH. discriminate.
Qed.

Lemma registry_accepted files : forall p k,
  map_has k (uploadedFiles (store p)) = true ->
  map_has k (uploadedFiles (store (handleFilesAccepted files p))) = true.
Proof.
  unfold handleFilesAccepted.
  induction files as [|f files IH]; intros p k H; simpl; [exact H|].
  apply IH. simpl. rewrite <- mem_keys_get, mem_set, mem_keys_get, H.
  apply orb_true_r.
Qed.

(** Every accepted file is registered and gets one inspection of its own:
    the awaited inspections grow by exactly the accepted files, in order,
    each file's name is a key of the registry afterwards, and the busy flag
    is up. *)
Theorem handleFilesAccepted_one_inspection_each files p :
  awaiting (handleFilesAccepted files p) = awaiting p ++ files /\
  (forall f, In f files ->
     map_has (name f)
       (uploadedFiles (store (handleFilesAccepted files p))) = true) /\
  (files = [] \/ isInspecting (store (handleFilesAccepted files p)) = true).
Proof.
  split; [apply awaiting_accepted|]. split.
  - revert p. unfold handleFilesAccepted.
    induction files as [|g files IH]; intros p f Hin; [destruct Hin|].
    simpl. destruct Hin as [->|Hin]; [|now apply IH].
    apply (registry_accepted files). simpl.
    unfold map_has. now rewrite get_set_same.
  - destruct files as [|f files]; [now left|right].
    apply flag_accepted. discriminate.
Qed.

(** The busy flag is never up with nothing to wait for: whatever has
    happened on the page, [isInspecting] being true means some inspection is
    still awaited. *)
Theorem flag_up_means_outstanding es p :
  UploadPage.run es initialPage = Some p ->
  isInspecting (store p) = true ->
  awaiting p <> [].
Proof.
  revert es p.
  apply (run_invariant
           (fun p => isInspecting (store p) = true -> awaiting p <> [])).
  - discriminate.
  - intros e p p' Hp. destruct e as [files|i r|n|]; cbn [step].
    + destruct (snd (Dropzone.handleFiles Dropzone.defaultMaxFiles
                       (isInspecting (store p)) (Some files) None))
        as [valid|]; intros H; injection H as <-; [|exact Hp].
      destruct valid as [|f valid]; [exact Hp|].
      intros _. rewrite awaiting_accepted.
      destruct (awaiting p); discriminate.
    + destruct (nth_error (awaiting p) i); [|discriminate].
      intros H. injection H as <-. rewrite resume_lowers. discriminate.
    + destruct (mem n (inspectingFiles p)); [discriminate|].
      intros H. injection H as <-. exact Hp.
    + intros H. injection H as <-. exact Hp.
Qed.

Lemma flag_up_means_outstanding_witness :
  exists p,
    UploadPage.run [Drop [a_bcf; b_bcf]; Settle 0 Rejected; Drop [a_bcf]]
      initialPage = Some p /\
    awaiting p <> [].
Proof.
  eexists. split; [reflexivity|].
  apply (flag_up_means_outstanding
           [Drop [a_bcf; b_bcf]; Settle 0 Rejected; Drop [a_bcf]]);
    reflexivity.
Defined.

(** *** The names shown as "Inspecting..." *)

Lemma mem_app_one n x s : mem n (s ++ [x]) = mem n s || String.eqb n x.
Proof.
  induction s as [|y s IH]; simpl; [apply orb_false_r|].
  rewrite IH. apply orb_assoc.
Qed.

Lemma mem_set_add n x s : mem n (set_add x s) = mem n s || String.eqb n x.
Proof.
  unfold set_add. destruct (mem x s) eqn:E; [|apply mem_app_one].
  destruct (String.eqb n x) eqn:En; [|now rewrite orb_false_r].
  apply String.eqb_eq in En. subst n. now rewrite E.
Qed.

Lemma distinct_app_one x s :
  distinct s = true -> mem x s = false -> distinct (s ++ [x]) = true.
Proof.
  induction s as [|y s IH]; simpl; [reflexivity|].
  intros Hd Hm. apply andb_true_iff in Hd as [Hy Hd].
  apply orb_false_iff in Hm as [Hxy Hm].
  rewrite mem_app_one, IH by assumption.
  apply negb_true_iff in Hy. rewrite Hy. simpl.
  rewrite String.eqb_sym. now rewrite Hxy.
Qed.

Lemma distinct_set_add x s : distinct s = true -> distinct (set_add x s) = true.
Proof.
  intros H. unfold set_add. destruct (mem x s) eqn:E; [exact H|].
  now apply distinct_app_one.
Qed.

Lemma mem_set_delete n x s :
  distinct s = true ->
  mem n (set_delete x s) = mem n s && negb (String.eqb n x).
Proof.
  induction s as [|y s IH]; simpl; [reflexivity|].
  intros Hd. apply andb_true_iff in Hd as [Hy Hd].
  apply negb_true_iff in Hy.
  destruct (String.eqb x y) eqn:Exy.
  - apply String.eqb_eq in Exy. subst y.
    destruct (String.eqb n x) eqn:En; simpl.
    + apply String.eqb_eq in En. subst n. now rewrite Hy.
    + now rewrite andb_true_r.
  - simpl. rewrite IH by exact Hd.
    destruct (String.eqb n y) eqn:Eny; simpl; [|reflexivity].
    apply String.eqb_eq in Eny. subst y.
    now rewrite String.eqb_sym, Exy.
Qed.

Lemma distinct_set_delete x s :
  distinct s = true -> distinct (set_delete x s) = true.
Proof.
  induction s as [|y s IH]; simpl; [reflexivity|].
  intros Hd. apply andb_true_iff in Hd as [Hy Hd].
  destruct (String.eqb x y); [exact Hd|]. simpl.
  rewrite IH by exact Hd. rewrite mem_set_delete by exact Hd.
  apply negb_true_iff in Hy. now rewrite Hy.
Qed.

Lemma in_remove_nth {A : Type} (x y : A) l : forall i,
  In x l -> nth_error l i = Some y -> x <> y -> In x (remove_nth i l).
Proof.
  induction l as [|z l IH]; intros i Hin Hnth Hne; [destruct Hin|].
  destruct i as [|i]; simpl in *.
  - injection Hnth as ->. destruct Hin as [->|Hin]; [congruence|exact Hin].
  - destruct Hin as [->|Hin]; [now left|right]. now apply (IH i).
Qed.

(** What the page keeps about [inspectingFiles]: no name twice, and every
    name in it is the name of a file whose inspection is awaited. *)
Definition names_awaited (p : Page) : Prop :=
  distinct (inspectingFiles p) = true /\
  forall n, mem n (inspectingFiles p) = true ->
            exists f, In f (awaiting p) /\ name f = n.

Lemma names_awaited_submit f p :
  names_awaited p -> names_awaited (inspectFile_submit f p).
Proof.
  intros [Hd Hn]. split; simpl.
  - now apply distinct_set_add.
  - intros n. rewrite mem_set_add. intros H.
    apply orb_true_iff in H as [H|H].
    + destruct (Hn n H) as (g & Hg & Hname). exists g.
      split; [apply in_or_app; now left|exact Hname].
    + apply String.eqb_eq in H. exists f.
      split; [apply in_or_app; right; now left|now symmetry].
Qed.

Lemma names_awaited_accepted files : forall p,
  names_awaited p -> names_awaited (handleFilesAccepted files p).
Proof.
  unfold handleFilesAccepted.
  induction files as [|f files IH]; intros p H; simpl; [exact H|].
  apply IH. now apply names_awaited_submit.
Qed.

Lemma names_awaited_step e p p' :
  names_awaited p -> step e p = Some p' -> names_awaited p'.
Proof.
  intros Hp. destruct e as [files|i r|n|]; cbn [step].
  - destruct (snd (Dropzone.handleFiles Dropzone.defaultMaxFiles
                     (isInspecting (store p)) (Some files) None))
      as [valid|]; intros H; injection H as <-; [|exact Hp].
    now apply names_awaited_accepted.
  - destruct (nth_error (awaiting p) i) as [f|] eqn:E; [|discriminate].
    intros H. injection H as <-. destruct Hp as [Hd Hn].
    assert (G : names_awaited
                  (inspectFile_finally f
                     {| store := store p;
                        inspectingFiles := inspectingFiles p;
                        awaiting := remove_nth i (awaiting p) |})).
    { split; simpl.
      - now apply distinct_set_delete.
      - intros n. rewrite mem_set_delete by exact Hd. intros H.
        apply andb_true_iff in H as [H Hne].
        destruct (Hn n H) as (g & Hg & Hname). exists g.
        split; [|exact Hname].
        apply (in_remove_nth g f _ i Hg E).
        intros ->. rewrite Hname, String.eqb_refl in Hne. discriminate. }
    destruct r; exact G.
  - destruct (mem n (inspectingFiles p)); [discriminate|].
    intros H. injection H as <-. exact Hp.
  - intros H. injection H as <-. exact Hp.
Qed.

(** A file is shown as being inspected, and its remove button is disabled,
    only while an inspection of a file of that name is awaited; once nothing
    is awaited no name is left in [inspectingFiles]. *)
Theorem inspecting_names_are_awaited es p :
  UploadPage.run es initialPage = Some p ->
  (forall n, mem n (inspectingFiles p) = true ->
             exists f, In f (awaiting p) /\ name f = n) /\
  (awaiting p = [] -> inspectingFiles p = []).
Proof.
  intros H.
  assert (G : names_awaited p).
  { revert es p H. apply (run_invariant names_awaited).
    - split; [reflexivity|discriminate].
    - intros e p p'. apply names_awaited_step. }
  destruct G as [_ G]. split; [exact G|].
  intros Ha. destruct (inspectingFiles p) as [|n ns] eqn:E; [reflexivity|].
  destruct (G n) as (f & Hf & _).
  - simpl. now rewrite String.eqb_refl.
  - rewrite Ha in Hf. destruct Hf.
Qed.

Lemma inspecting_names_are_awaited_witness :
  exists p,
    UploadPage.run [Drop [a_bcf; a_bcf_again; b_bcf];
                    Settle 0 (Fulfilled a_issues)] initialPage = Some p /\
    (forall n, mem n (inspectingFiles p) = true ->
               exists f, In f (awaiting p) /\ name f = n) /\
    (awaiting p = [] -> inspectingFiles p = []).
Proof.
  eexists. split; [reflexivity|].
  apply (inspecting_names_are_awaited
           [Drop [a_bcf; a_bcf_again; b_bcf]; Settle 0 (Fulfilled a_issues)]).
  reflexivity.
Defined.

(** The converse fails for two files of one name: the first settlement takes
    the name out of the set while the second inspection is still awaited. *)
Example awaited_name_not_shown :
  exists p,
    UploadPage.run [Drop [a_bcf; a_bcf_again]; Settle 0 Rejected] initialPage
      = Some p /\
    awaiting p = [a_bcf_again] /\
    inspectingFiles p = [].
Proof. eexists. repeat split. Qed.

End UploadPageLaws.

(** ** What the drop zone hands on *)

Module DropzoneLaws.

Import Store Dropzone.

Lemma validateOne_counts acc f :
  List.length (fst (validateOne acc f)) + List.length (snd (validateOne acc f))
  = S (List.length (fst acc) + List.length (snd acc)).
Proof.
  destruct acc as [valid errors]. unfold validateOne.
  destruct (negb _); [|destruct (sizeLimit <? size f)%N]; simpl;
    rewrite length_app; simpl; lia.
Qed.

Lemma validate_fold_counts files : forall acc,
  List.length (fst (fold_left validateOne files acc))
  + List.length (snd (fold_left validateOne files acc))
  = List.length (fst acc) + List.length (snd acc) + List.length files.
Proof.
  induction files as [|f files IH]; intros acc; simpl; [lia|].
  rewrite IH, validateOne_counts. lia.
Qed.

(** In a batch within the limit every file is either accepted or reported,
    never both and never neither: the accepted files and the error messages
    together number the files submitted. *)
Theorem validateFiles_accounts_for_every_file maxFiles files :
  List.length files <= maxFiles ->
  List.length (fst (validateFiles maxFiles files))
  + List.length (snd (validateFiles maxFiles files))
  = List.length files.
Proof.
  intros H. unfold validateFiles. apply Nat.ltb_ge in H. rewrite H.
  now rewrite validate_fold_counts.
Qed.

Lemma validateFiles_accounts_for_every_file_witness :
  let files := [a_bcf; {| name := "plan.pdf"; size := 7; content := 4 |};
                {| name := "huge.bcf"; size := 104857601; content := 5 |}] in
  List.length (fst (validateFiles defaultMaxFiles files))
  + List.length (snd (validateFiles defaultMaxFiles files))
  = List.length files.
Proof.
  apply (validateFiles_accounts_for_every_file defaultMaxFiles
           [a_bcf; {| name := "plan.pdf"; size := 7; content := 4 |};
            {| name := "huge.bcf"; size := 104857601; content := 5 |}]).
  unfold defaultMaxFiles. simpl. lia.
Defined.

Lemma validateFiles_valid maxFiles files :
  exists kept,
    fst (validateFiles maxFiles files) = filter passes kept /\
    List.length kept <= maxFiles /\
    (kept = [] \/ kept = files).
Proof.
  unfold validateFiles.
  destruct (maxFiles <? List.length files)%nat eqn:E.
  - exists []. simpl. repeat split; [lia|now left].
  - apply Nat.ltb_ge in E. exists files. rewrite validate_fold.
    repeat split; [exact E|now right].
Qed.

(** When [handleFiles] calls [onFilesAccepted], the drop zone was enabled,
    the list it passes is not empty and holds at most [maxFiles] files, every
    file in it was submitted, is at most 100 MB and has a lower-cased name
    ending in ".bcf" or ".bcfzip" (or being "bcf" or "bcfzip"), and the error
    text is cleared, also when other files of the batch were refused. *)
Theorem handleFiles_callback_contract maxFiles disabled files error e valid :
  handleFiles maxFiles disabled files error = (e, Some valid) ->
  disabled = false /\
  e = None /\
  valid <> [] /\
  List.length valid <= maxFiles /\
  forall f, In f valid ->
    (exists submitted, files = Some submitted /\ In f submitted) /\
    (size f <= sizeLimit)%N /\
    (has_extension f || bare_name f) = true.
Proof.
  unfold handleFiles. destruct files as [fileArray|]; [|discriminate].
  destruct (List.length fileArray =? 0)%nat; [discriminate|].
  destruct disabled; [discriminate|]. simpl.
  destruct (validateFiles_valid maxFiles fileArray) as (kept & Hv & Hlen & Hk).
  destruct (validateFiles maxFiles fileArray) as [v errs]. simpl in Hv.
  destruct (0 <? List.length v)%nat eqn:Ev; [|discriminate].
  intros H. injection H as <- <-.
  split; [reflexivity|]. split; [reflexivity|].
  split; [destruct v; [discriminate|discriminate]|].
  split.
  - rewrite Hv.
    exact (Nat.le_trans _ _ _ (filter_length_le passes kept) Hlen).
  - intros f Hin. rewrite Hv in Hin. apply filter_In in Hin as [Hin Hp].
    unfold passes in Hp. apply andb_true_iff in Hp as [Hext Hsize].
    rewrite extension_test in Hext.
    split; [|split; [now apply N.leb_le|exact Hext]].
    exists fileArray. split; [reflexivity|].
    destruct Hk as [->| ->]; [destruct Hin|exact Hin].
Qed.

Lemma handleFiles_callback_contract_witness :
  let files := [a_bcf; {| name := "plan.pdf"; size := 7; content := 4 |}] in
  false = false /\
  @None string = None /\
  [a_bcf] <> [] /\
  List.length [a_bcf] <= defaultMaxFiles /\
  forall f, In f [a_bcf] ->
    (exists submitted, Some files = Some submitted /\ In f submitted) /\
    (size f <= sizeLimit)%N /\
    (has_extension f || bare_name f) = true.
Proof.
  apply (handleFiles_callback_contract defaultMaxFiles false
           (Some [a_bcf; {| name := "plan.pdf"; size := 7; content := 4 |}])
           (Some "stale error") None [a_bcf]).
  reflexivity.
Defined.

(** A batch none of whose files is accepted never reaches the callback, and
    the error text becomes the messages joined by spaces. *)
Theorem handleFiles_all_refused maxFiles files error :
  files <> [] ->
  fst (validateFiles maxFiles files) = [] ->
  handleFiles maxFiles false (Some files) error
  = (Some (String.concat " " (snd (validateFiles maxFiles files))), None) /\
  snd (validateFiles maxFiles files) <> [].
Proof.
  intros Hne Hv. unfold handleFiles.
  destruct files as [|f files]; [congruence|]. cbn [List.length Nat.eqb orb].
  assert (He : snd (validateFiles maxFiles (f :: files)) <> []).
  { unfold validateFiles in *.
    destruct (maxFiles <? List.length (f :: files))%nat eqn:E;
      [discriminate|].
    pose proof (validate_fold_counts (f :: files) ([], [])) as Hc.
    rewrite Hv in Hc.
    destruct (snd (fold_left validateOne (f :: files) ([], [])));
      [simpl in Hc; lia|discriminate]. }
  destruct (validateFiles maxFiles (f :: files)) as [v errs].
  simpl in Hv, He. subst v. simpl.
  destruct errs; [congruence|]. split; [reflexivity|discriminate].
Qed.

Lemma handleFiles_all_refused_witness :
  let files := [{| name := "plan.pdf"; size := 7; content := 4 |}] in
  handleFiles defaultMaxFiles false (Some files) None
  = (Some (String.concat " " (snd (validateFiles defaultMaxFiles files))),
     None) /\
  snd (validateFiles defaultMaxFiles files) <> [].
Proof.
  apply (handleFiles_all_refused defaultMaxFiles
           [{| name := "plan.pdf"; size := 7; content := 4 |}] None).
  - discriminate.
  - reflexivity.
Defined.

End DropzoneLaws.

(** ** The API client: addresses, failures and well-formed headers *)

Module ApiLaws.

Import Store Api IssuesPage.

(** [import.meta.env?.VITE_API_BASE_URL ?? 'http://localhost:8000']; [env]
    is the configured value, if any. *)
Definition API_BASE_URL (env : option string) : string :=
  match env with
  | Some url => url
  | None => "http://localhost:8000"
  end.

(** [s.replace(/\/$/, '')]: the expression can only match a slash that is
    the last character; scanning from the left, each position is tried. *)
Fixpoint replace_trailing_slash (s : string) : string :=
  match s with
  | EmptyString => EmptyString
  | String c s' =>
      if Ascii.eqb c "/" && match s' with EmptyString => true | _ => false end
      then EmptyString
      else String c (replace_trailing_slash s')
  end.

Definition buildUrl (env : option string) (path : string) : string :=
  (replace_trailing_slash (API_BASE_URL env) ++ path)%string.

Lemma replace_slash_added base :
  replace_trailing_slash (base ++ "/")%string = base.
Proof.
  induction base as [|c base IH]; [reflexivity|].
  cbn [String.append replace_trailing_slash]. rewrite IH.
  destruct (base ++ "/")%string eqn:E.
  - destruct base; discriminate.
  - now rewrite andb_false_r.
Qed.

Lemma replace_slash_none base :
  Dropzone.ends_with "/" base = false -> replace_trailing_slash base = base.
Proof.
  induction base as [|c base IH]; [reflexivity|].
  cbn [Dropzone.ends_with replace_trailing_slash]. intros H.
  apply orb_false_iff in H as [Hc Hb].
  destruct base as [|c' base].
  - destruct (Ascii.eqb c "/") eqn:Ec; [|reflexivity].
    apply Ascii.eqb_eq in Ec. subst c. discriminate.
  - rewrite andb_false_r. now rewrite IH.
Qed.

(** A base address configured with one trailing slash and the same address
    without it give the same endpoint: the base followed by the path. *)
Theorem buildUrl_ignores_trailing_slash base path :
  Dropzone.ends_with "/" base = false ->
  buildUrl (Some (base ++ "/")%string) path = (base ++ path)%string /\
  buildUrl (Some base) path = (base ++ path)%string.
Proof.
  intros H. unfold buildUrl, API_BASE_URL.
  now rewrite replace_slash_added, replace_slash_none.
Qed.

Lemma buildUrl_ignores_trailing_slash_witness :
  buildUrl (Some ("https://bim.example/api" ++ "/")%string) "/bcf/merge"
  = ("https://bim.example/api" ++ "/bcf/merge")%string /\
  buildUrl (Some "https://bim.example/api") "/bcf/merge"
  = ("https://bim.example/api" ++ "/bcf/merge")%string.
Proof.
  apply (buildUrl_ignores_trailing_slash "https://bim.example/api"
           "/bcf/merge").
  reflexivity.
Defined.

Example buildUrl_default :
  buildUrl None "/bcf/inspect" = "http://localhost:8000/bcf/inspect" /\
  buildUrl (Some "http://host//") "/bcf/inspect"
  = "http://host//bcf/inspect".
Proof. split; reflexivity. Qed.

(** *** Failed responses *)

(** What [ensureSuccess] throws for a response that is not ok: never an empty
    message; a non-empty [detail] of the body is the message; without a
    string [detail] the message is the fixed sentence, whatever the status
    text; the status text is used only when [detail] is the empty string. *)
Theorem ensureSuccess_message response :
  ok response = false ->
  exists message,
    ensureSuccess response = Thrown message /\
    message <> EmptyString /\
    (detail response = None ->
     message = "Une erreur inattendue est survenue."%string) /\
    (forall d, detail response = Some d -> d <> EmptyString -> message = d) /\
    (detail response = Some EmptyString ->
     statusText response <> EmptyString -> message = statusText response).
Proof.
  intros Hok. unfold ensureSuccess. rewrite Hok.
  eexists. split; [reflexivity|].
  destruct (detail response) as [[|c d]|]; destruct (statusText response);
    simpl; repeat split; try discriminate; try congruence;
    intros d' H; injection H as <-; congruence.
Qed.

Lemma ensureSuccess_message_witness :
  let response := {| ok := false; statusText := "Bad Request";
                     detail := None; contentDisposition := None;
                     body := 0%N |} in
  exists message,
    ensureSuccess response = Thrown message /\
    message <> EmptyString /\
    (detail response = None ->
     message = "Une erreur inattendue est survenue."%string) /\
    (forall d, detail response = Some d -> d <> EmptyString -> message = d) /\
    (detail response = Some EmptyString ->
     statusText response <> EmptyString -> message = statusText response).
Proof.
  apply (ensureSuccess_message
           {| ok := false; statusText := "Bad Request"; detail := None;
              contentDisposition := None; body := 0%N |}).
  reflexivity.
Defined.



(** *** Headers of the usual shapes *)

Local Open Scope N_scope.

Definition star : N := 42.

Lemma match_literal_nth pat : forall t r i p,
  match_literal pat t = Some r ->
  nth_error pat i = Some p ->
  exists c, nth_error t i = Some c /\ ci_eq p c = true.
Proof.
  induction pat as [|p0 pat IH]; intros t r i p Hm Hi.
  - destruct i; discriminate.
  - destruct t as [|c t]; [discriminate|]. simpl in Hm.
    destruct (ci_eq p0 c) eqn:E; [|discriminate].
    destruct i as [|i]; simpl in *.
    + injection Hi as <-. now exists c.
    + now apply (IH t r).
Qed.

Lemma ci_eq_star c : ci_eq star c = true -> c = star.
Proof.
  unfold ci_eq, star. change (canonicalize 42) with 42.
  unfold canonicalize.
  destruct ((97 <=? c) && (c <=? 122)) eqn:E; intros H;
    apply N.eqb_eq in H; [|now symmetry].
  apply andb_true_iff in E as [E1 E2].
  apply N.leb_le in E1, E2. lia.
Qed.

Lemma exec_here re_at s capture :
  re_at s = Some capture -> exec re_at s = Some capture.
Proof. intros H. destruct s; simpl; now rewrite H. Qed.

Lemma exec_skip re_at pre s :
  (forall p1 c p2, pre = p1 ++ c :: p2 -> re_at (c :: p2 ++ s) = None) ->
  exec re_at (pre ++ s) = exec re_at s.
Proof.
  induction pre as [|c pre IH]; intros H; [reflexivity|].
  cbn [app exec]. rewrite (H [] c pre eq_refl).
  apply IH. intros p1 c' p2 Hp. apply (H (c :: p1) c' p2).
  simpl. now rewrite Hp.
Qed.

Lemma span_stop ok a b :
  forallb ok a = true ->
  match b with c :: _ => ok c = false | [] => True end ->
  span ok (a ++ b) = a.
Proof.
  intros Ha Hb. induction a as [|c a IH]; simpl in *.
  - destruct b as [|c b]; [reflexivity|]. simpl. now rewrite Hb.
  - apply andb_true_iff in Ha as [Hc Ha]. rewrite Hc. now rewrite IH.
Qed.

Lemma decode_no_percent s :
  forallb (fun c => negb (c =? percent)) s = true ->
  decodeURIComponent s = Some s.
Proof.
  induction s as [|c s IH]; [reflexivity|].
  cbn [forallb decodeURIComponent]. intros H.
  apply andb_true_iff in H as [Hc Hs]. rewrite Hc, IH by exact Hs.
  reflexivity.
Qed.

Definition no_unit (u : N) (s : jsstring) : bool :=
  forallb (fun c => negb (c =? u)) s.

Lemma no_unit_in u s : no_unit u s = true -> ~ In u s.
Proof.
  unfold no_unit. intros H Hin.
  rewrite forallb_forall in H. specialize (H u Hin).
  now rewrite N.eqb_refl in H.
Qed.

(** No letter f, in either case. *)
Definition no_f (s : jsstring) : bool :=
  forallb (fun c => negb (ci_eq 102 c)) s.

Lemma no_f_no_start pre : forall p1 c p2 s pat,
  no_f pre = true -> pre = p1 ++ c :: p2 ->
  match_literal (102 :: pat) (c :: p2 ++ s) = None.
Proof.
  intros p1 c p2 s pat H ->. unfold no_f in H.
  rewrite forallb_app in H. apply andb_true_iff in H as [_ H].
  simpl in H. apply andb_true_iff in H as [H _].
  apply negb_true_iff in H. simpl. now rewrite H.
Qed.

Lemma no_star_no_extended s : no_unit star s = true -> exec extended_at s = None.
Proof.
  intros H. apply exec_none. intros pre suf ->.
  unfold extended_at.
  destruct (match_literal (lit "filename*=UTF-8''") suf) as [r|] eqn:E;
    [|reflexivity].
  exfalso.
  destruct (match_literal_nth _ suf r 8%nat star E eq_refl) as (c & Hc & Hs).
  apply ci_eq_star in Hs. subst c.
  apply (no_unit_in star _ H). apply in_or_app. right.
  now apply nth_error_In in Hc.
Qed.

(** The extended form is found wherever it stands, provided no star comes
    before it: with the header [pre ++ l ++ encoded ++ post], where [l] is
    "filename*=UTF-8''" in any letter case and [encoded] runs to the next
    semicolon or the end, the download is named by decoding [encoded] (or by
    [encoded] itself when decoding throws, and exactly [encoded] when it holds
    no percent sign), whatever plain form the header also carries. *)
Theorem extended_form_names_download now pre l encoded post :
  no_unit star pre = true ->
  map canonicalize l = map canonicalize (lit "filename*=UTF-8''") ->
  encoded <> [] ->
  no_unit semicolon encoded = true ->
  match post with c :: _ => c = semicolon | [] => True end ->
  suggestedName now (Some (pre ++ l ++ encoded ++ post))
  = decoded_or_raw encoded /\
  (no_unit percent encoded = true ->
   suggestedName now (Some (pre ++ l ++ encoded ++ post)) = encoded).
Proof.
  intros Hpre Hl Hne Henc Hpost.
  assert (Hat : extended_at (l ++ encoded ++ post) = Some encoded).
  { unfold extended_at.
    assert (Hm : match_literal (lit "filename*=UTF-8''")
                   (l ++ encoded ++ post) = Some (encoded ++ post))
      by (apply match_literal_spec; now exists l).
    rewrite Hm. rewrite span_stop.
    - destruct encoded; [congruence|reflexivity].
    - exact Henc.
    - destruct post as [|c post]; [exact I|]. subst c. reflexivity. }
  assert (Hex : exec extended_at (pre ++ l ++ encoded ++ post) = Some encoded).
  { rewrite exec_skip; [now apply exec_here|].
    intros p1 c p2 Hp. unfold extended_at.
    destruct (match_literal (lit "filename*=UTF-8''")
                (c :: p2 ++ l ++ encoded ++ post)) as [r|] eqn:E;
      [|reflexivity].
    exfalso.
    destruct (match_literal_nth _ _ r 8%nat star E eq_refl) as (x & Hx & Hs).
    apply ci_eq_star in Hs. subst x.
    change (c :: p2 ++ l ++ encoded ++ post)
      with ((c :: p2) ++ l ++ encoded ++ post) in Hx.
    destruct (Nat.lt_ge_cases 8 (List.length (c :: p2))) as [Hlt|Hge].
    - rewrite nth_error_app1 in Hx by exact Hlt.
      apply nth_error_In in Hx.
      apply (no_unit_in star pre Hpre). rewrite Hp.
      apply in_or_app. right. exact Hx.
    - rewrite nth_error_app2 in Hx by exact Hge.
      assert (Hlen : List.length l = 17%nat).
      { apply (f_equal (@List.length N)) in Hl.
        now rewrite !length_map in Hl. }
      remember (8 - List.length (c :: p2))%nat as j eqn:Hj.
      assert (Hj7 : (j <= 7)%nat) by (cbn [List.length] in Hj; lia).
      rewrite nth_error_app1 in Hx by lia.
      apply (map_nth_error canonicalize) in Hx. rewrite Hl in Hx.
      do 8 (destruct j as [|j]; [discriminate|]). lia. }
  rewrite suggestedName_is_filename, mergeBcfs_filename_cases.
  cbv zeta. rewrite Hex. split; [reflexivity|].
  intros Hp. unfold decoded_or_raw. now rewrite decode_no_percent.
Qed.

Lemma extended_form_names_download_witness :
  let pre := lit "attachment; filename=" ++ [quote] ++ lit "plain.bcfzip"
             ++ [quote] ++ lit "; " in
  let l := lit "FILENAME*=utf-8''" in
  let encoded := lit "r%C3%A9sum%C3%A9.bcfzip" in
  let post := lit "; size=12" in
  suggestedName 1700000000000 (Some (pre ++ l ++ encoded ++ post))
  = decoded_or_raw encoded /\
  (no_unit percent encoded = true ->
   suggestedName 1700000000000 (Some (pre ++ l ++ encoded ++ post))
   = encoded).
Proof.
  apply (extended_form_names_download 1700000000000
           (lit "attachment; filename=" ++ [quote] ++ lit "plain.bcfzip"
            ++ [quote] ++ lit "; ")
           (lit "FILENAME*=utf-8''")
           (lit "r%C3%A9sum%C3%A9.bcfzip")
           (lit "; size=12")).
  - reflexivity.
  - reflexivity.
  - discriminate.
  - reflexivity.
  - reflexivity.
Defined.

(** The plain form, quoted or not, names the download when the header holds
    no star (so no extended form) and no letter f comes before it: with the
    header [pre ++ l ++ q ++ plain ++ post], where [l] is "filename=" in any
    letter case, [q] is a quote or nothing and [plain] runs to the next quote,
    semicolon or the end, the name is [plain] decoded, and exactly [plain] when
    it holds no percent sign. *)
Theorem plain_form_names_download now pre l q plain post :
  no_f pre = true ->
  no_unit star (pre ++ l ++ q ++ plain ++ post) = true ->
  map canonicalize l = map canonicalize (lit "filename=") ->
  q = [] \/ q = [quote] ->
  plain <> [] ->
  forallb (fun c => negb ((c =? quote) || (c =? semicolon))) plain = true ->
  match post with
  | c :: _ => c = quote \/ c = semicolon
  | [] => True
  end ->
  suggestedName now (Some (pre ++ l ++ q ++ plain ++ post))
  = decoded_or_raw plain /\
  (no_unit percent plain = true ->
   suggestedName now (Some (pre ++ l ++ q ++ plain ++ post)) = plain).
Proof.
  intros Hpre Hstar Hl Hq Hne Hplain Hpost.
  assert (Hat : plain_at (l ++ q ++ plain ++ post) = Some plain).
  { unfold plain_at.
    assert (Hm : match_literal (lit "filename=") (l ++ q ++ plain ++ post)
                 = Some (q ++ plain ++ post))
      by (apply match_literal_spec; now exists l).
    rewrite Hm.
    assert (Hs : span (fun c => negb ((c =? quote) || (c =? semicolon)))
                   (plain ++ post) = plain).
    { apply span_stop; [exact Hplain|].
      destruct post as [|c post]; [exact I|].
      apply negb_false_iff, orb_true_iff.
      destruct Hpost as [-> | ->]; [now left|now right]. }
    cbv zeta. destruct plain as [|c plain]; [congruence|].
    destruct Hq as [-> | ->]; cbn [app].
    - cbn [forallb] in Hplain. apply andb_true_iff in Hplain as [Hc _].
      apply negb_true_iff, orb_false_iff in Hc as [Hc _]. rewrite Hc.
      cbn [app] in Hs. now rewrite Hs.
    - change (quote =? quote) with true. cbv iota.
      cbn [app] in Hs. now rewrite Hs. }
  assert (Hex : exec plain_at (pre ++ l ++ q ++ plain ++ post) = Some plain).
  { rewrite exec_skip; [now apply exec_here|].
    intros p1 c p2 Hp. unfold plain_at.
    change (lit "filename=") with (102 :: lit "ilename=").
    now rewrite (no_f_no_start pre p1 c p2 _ _ Hpre Hp). }
  rewrite suggestedName_is_filename, mergeBcfs_filename_cases.
  cbv zeta. rewrite (no_star_no_extended _ Hstar), Hex.
  split; [reflexivity|].
  intros Hp. unfold decoded_or_raw. now rewrite decode_no_percent.
Qed.

Lemma plain_form_names_download_witness :
  let pre := lit "attachment; " in
  let l := lit "Filename=" in
  let plain := lit "site merge.bcfzip" in
  suggestedName 1700000000000
    (Some (pre ++ l ++ [quote] ++ plain ++ [quote]))
  = decoded_or_raw plain /\
  (no_unit percent plain = true ->
   suggestedName 1700000000000
     (Some (pre ++ l ++ [quote] ++ plain ++ [quote])) = plain).
Proof.
  apply (plain_form_names_download 1700000000000
           (lit "attachment; ") (lit "Filename=") [quote]
           (lit "site merge.bcfzip") [quote]).
  - reflexivity.
  - reflexivity.
  - reflexivity.
  - now right.
  - discriminate.
  - reflexivity.
  - now left.
Defined.

End ApiLaws.

(** ** The issues table: [frontend/src/components/IssuesTable.tsx] *)

Module IssuesTable.

Import Store.

Definition toLowerCase : string -> string := Dropzone.toLowerCase.

(** [s.includes(t)]: [t] occurs in [s]. *)
Fixpoint str_includes (s t : string) : bool :=
  String.prefix t s
  || match s with
     | EmptyString => false
     | String _ s' => str_includes s' t
     end.

(** The test of [issues.filter] in [filteredIssues]. *)
Definition matchesSearch (searchTerm : string) (issue : BCFIssue) : bool :=
  str_includes (toLowerCase (title issue)) (toLowerCase searchTerm)
  || str_includes (toLowerCase (author issue)) (toLowerCase searchTerm)
  || str_includes (toLowerCase (guid issue)) (toLowerCase searchTerm).

Definition matchesStatus (statusFilter : string) (issue : BCFIssue) : bool :=
  String.eqb statusFilter "all"
  || String.eqb (toLowerCase (status issue)) (toLowerCase statusFilter).

Definition matchesPriority (priorityFilter : string) (issue : BCFIssue)
    : bool :=
  String.eqb priorityFilter "all"
  || String.eqb (toLowerCase (priority issue)) (toLowerCase priorityFilter).

Definition filteredIssues (searchTerm statusFilter priorityFilter : string)
    (issues : list BCFIssue) : list BCFIssue :=
  filter (fun issue =>
            matchesSearch searchTerm issue
            && matchesStatus statusFilter issue
            && matchesPriority priorityFilter issue) issues.

(** [Array.from(new Set(a))]: the elements of [a], each once, in the order of
    their first occurrence. *)
Definition unique (a : list string) : list string :=
  fold_left (fun s x => UploadPage.set_add x s) a [].

Definition statuses (issues : list BCFIssue) : list string :=
  "all" :: unique (map status issues).

Definition priorities (issues : list BCFIssue) : list string :=
  "all" :: unique (map priority issues).

Definition getStatusColor (st : string) : string :=
  let s := toLowerCase st in
  if String.eqb s "open" then "bg-accent text-accent-foreground"
  else if String.eqb s "in progress" then "bg-primary text-primary-foreground"
  else if String.eqb s "resolved" then "bg-success text-success-foreground"
  else if String.eqb s "closed" then "bg-muted text-muted-foreground"
  else "bg-secondary text-secondary-foreground".

Definition getPriorityColor (pr : string) : string :=
  let s := toLowerCase pr in
  if String.eqb s "high" then "bg-destructive text-destructive-foreground"
  else if String.eqb s "medium" then "bg-warning text-warning-foreground"
  else if String.eqb s "low" then "bg-success text-success-foreground"
  else "bg-secondary text-secondary-foreground".

(** *** Searching and filtering *)

Lemma prefix_refl s : String.prefix s s = true.
Proof.
  induction s as [|c s IH]; simpl; [reflexivity|].
  destruct (ascii_dec c c); [exact IH|congruence].
Qed.

Lemma prefix_empty s : String.prefix "" s = true.
Proof. now destruct s. Qed.

Lemma includes_self s : str_includes s s = true.
Proof. destruct s; cbn [str_includes]; now rewrite prefix_refl. Qed.

Lemma includes_empty s : str_includes s "" = true.
Proof. destruct s; cbn [str_includes]; now rewrite prefix_empty. Qed.

(** With the search box empty and both selectors on "all", the table shows
    every issue, in the order given. *)
Theorem default_filters_show_all issues :
  filteredIssues "" "all" "all" issues = issues.
Proof.
  unfold filteredIssues. induction issues as [|i issues IH]; [reflexivity|].
  cbn [filter]. unfold matchesSearch at 1.
  change (toLowerCase "") with "". rewrite includes_empty. simpl.
  now rewrite IH.
Qed.

(** Searching for an issue's title, author or GUID, in any letter case,
    finds that issue. *)
Theorem search_finds_by_field term i issues :
  In i issues ->
  toLowerCase term = toLowerCase (title i) \/
  toLowerCase term = toLowerCase (author i) \/
  toLowerCase term = toLowerCase (guid i) ->
  In i (filteredIssues term "all" "all" issues).
Proof.
  intros Hin Hterm. unfold filteredIssues. apply filter_In.
  split; [exact Hin|]. unfold matchesSearch.
  destruct Hterm as [-> | [-> | ->]]; rewrite includes_self;
    simpl; now rewrite ?orb_true_r.
Qed.

Lemma search_finds_by_field_witness :
  let i := sample_issue "a-1" "a.bcf" in
  In i (filteredIssues "JANE SMITH" "all" "all" a_issues).
Proof.
  apply (search_finds_by_field "JANE SMITH" (sample_issue "a-1" "a.bcf")
           a_issues).
  - now left.
  - right. left. reflexivity.
Defined.

(** *** The selector options *)

Lemma mem_fold_add n l : forall acc,
  mem n (fold_left (fun s x => UploadPage.set_add x s) l acc)
  = mem n acc || mem n l.
Proof.
  induction l as [|x l IH]; intros acc; simpl; [now rewrite orb_false_r|].
  rewrite IH, UploadPageLaws.mem_set_add.
  now rewrite <- orb_assoc.
Qed.

Lemma distinct_fold_add l : forall acc,
  distinct acc = true ->
  distinct (fold_left (fun s x => UploadPage.set_add x s) l acc) = true.
Proof.
  induction l as [|x l IH]; intros acc H; simpl; [exact H|].
  apply IH. now apply UploadPageLaws.distinct_set_add.
Qed.

Lemma mem_In n l : mem n l = true <-> In n l.
Proof.
  induction l as [|x l IH]; simpl; [split; [discriminate|tauto]|].
  rewrite orb_true_iff, IH, String.eqb_eq. split; intros [H|H]; auto.
Qed.

Lemma unique_In n l : In n (unique l) <-> In n l.
Proof.
  unfold unique. rewrite <- !mem_In. now rewrite mem_fold_add.
Qed.

Lemma option_selects (field : BCFIssue -> string) test issues opt :
  (forall i, String.eqb (toLowerCase (field i)) (toLowerCase opt) = true ->
             test i = true) ->
  In opt (map field issues) ->
  filter test issues <> [].
Proof.
  intros Htest Hin. apply in_map_iff in Hin as (i & <- & Hi).
  assert (G : In i (filter test issues)).
  { apply filter_In. split; [exact Hi|]. apply Htest. apply String.eqb_refl. }
  intros E. rewrite E in G. destruct G.
Qed.

(** Every option the two selectors offer shows at least one issue when it is
    chosen alone, provided there are issues at all. *)
Theorem offered_options_select_something issues :
  issues <> [] ->
  (forall st, In st (statuses issues) ->
     filteredIssues "" st "all" issues <> []) /\
  (forall pr, In pr (priorities issues) ->
     filteredIssues "" "all" pr issues <> []).
Proof.
  intros Hne. split.
  - intros st [<-|Hin].
    + now rewrite default_filters_show_all.
    + apply (proj1 (unique_In _ _)) in Hin. unfold filteredIssues.
      apply (option_selects status _ issues st); [|exact Hin].
      intros i Hi. unfold matchesSearch, matchesStatus.
      change (toLowerCase "") with "". rewrite includes_empty, Hi. simpl.
      now rewrite orb_true_r.
  - intros pr [<-|Hin].
    + now rewrite default_filters_show_all.
    + apply (proj1 (unique_In _ _)) in Hin. unfold filteredIssues.
      apply (option_selects priority _ issues pr); [|exact Hin].
      intros i Hi. unfold matchesSearch, matchesPriority.
      change (toLowerCase "") with "". rewrite includes_empty, Hi. simpl.
      now rewrite orb_true_r.
Qed.

Lemma offered_options_select_something_witness :
  (forall st, In st (statuses (a_issues ++ b_issues)) ->
     filteredIssues "" st "all" (a_issues ++ b_issues) <> []) /\
  (forall pr, In pr (priorities (a_issues ++ b_issues)) ->
     filteredIssues "" "all" pr (a_issues ++ b_issues) <> []).
Proof.
  apply (offered_options_select_something (a_issues ++ b_issues)).
  discriminate.
Defined.

End IssuesTable.

(** ** The issues page: the statistics cards and the merge button *)

Module IssuesPageLaws.

Import Store IssuesPage.

(** One badge of the "By Status" and "By Priority" cards: for each distinct
    value of the field, in order of first occurrence, the number of issues
    that carry it ([allIssues.filter(i => i.status === status).length]). *)
Definition badges (field : BCFIssue -> string) (allIssues : list BCFIssue)
    : list (string * nat) :=
  map (fun value =>
         (value,
          List.length (filter (fun i => String.eqb (field i) value) allIssues)))
    (IssuesTable.unique (map field allIssues)).

Definition statusBadges : list BCFIssue -> list (string * nat) := badges status.
Definition priorityBadges : list BCFIssue -> list (string * nat) :=
  badges priority.

(** [filesArray.length >= 2] *)
Definition canMerge (s : BCFState) : bool :=
  (2 <=? List.length (map_values (uploadedFiles s)))%nat.

Lemma sum_split {A : Type} (f g : A -> nat) l :
  list_sum (map (fun x => f x + g x) l)
  = list_sum (map f l) + list_sum (map g l).
Proof. induction l as [|x l IH]; simpl; [reflexivity|]. rewrite IH. lia. Qed.

Lemma sum_indicator k U :
  distinct U = true -> mem k U = true ->
  list_sum (map (fun u => if String.eqb k u then 1 else 0) U) = 1.
Proof.
  induction U as [|u U IH]; simpl; [discriminate|].
  intros Hd Hm. apply andb_true_iff in Hd as [Hu Hd].
  apply negb_true_iff in Hu.
  destruct (String.eqb k u) eqn:E.
  - apply String.eqb_eq in E. subst u.
    assert (Z : list_sum (map (fun u => if String.eqb k u then 1 else 0) U)
                = 0).
    { clear IH Hd Hm. induction U as [|v U IH]; simpl in *; [reflexivity|].
      apply orb_false_iff in Hu as [Hv Hu]. rewrite Hv. now rewrite IH. }
    now rewrite Z.
  - simpl in Hm. now rewrite IH.
Qed.

Lemma counts_sum ks : forall U,
  distinct U = true ->
  (forall k, In k ks -> mem k U = true) ->
  list_sum (map (fun u => List.length (filter (fun k => String.eqb k u) ks)) U)
  = List.length ks.
Proof.
  induction ks as [|k ks IH]; intros U Hd Hall.
  - clear. induction U as [|u U IH]; simpl; [reflexivity|exact IH].
  - rewrite (map_ext _
               (fun u => (if String.eqb k u then 1 else 0)
                         + List.length (filter (fun k => String.eqb k u) ks))).
    + rewrite sum_split, sum_indicator, IH; auto.
      * intros k' Hk'. apply Hall. now right.
      * apply Hall. now left.
    + intros u. simpl. now destruct (String.eqb k u).
Qed.

Lemma filter_field (field : BCFIssue -> string) value l :
  List.length (filter (fun i => String.eqb (field i) value) l)
  = List.length (filter (fun k => String.eqb k value) (map field l)).
Proof.
  induction l as [|i l IH]; simpl; [reflexivity|].
  destruct (String.eqb (field i) value); simpl; now rewrite IH.
Qed.

(** The badges of a card partition the issues: their labels are distinct,
    every badge counts at least one issue, and the counts add up to the
    number of issues. *)
Theorem badges_partition field allIssues :
  distinct (map fst (badges field allIssues)) = true /\
  (forall value n, In (value, n) (badges field allIssues) -> 1 <= n) /\
  list_sum (map snd (badges field allIssues)) = List.length allIssues.
Proof.
  unfold badges. rewrite !map_map. cbn [fst snd]. rewrite map_id.
  assert (Hd : distinct (IssuesTable.unique (map field allIssues)) = true)
    by (apply IssuesTable.distinct_fold_add; reflexivity).
  split; [exact Hd|]. split.
  - intros value n Hin. apply in_map_iff in Hin as (v & Hv & Hin).
    injection Hv as -> <-.
    apply IssuesTable.unique_In, in_map_iff in Hin as (i & Hi & Hin).
    assert (G : In i (filter (fun i => String.eqb (field i) value) allIssues))
      by (apply filter_In; split; [exact Hin|now apply String.eqb_eq]).
    destruct (filter _ allIssues); [destruct G|simpl; lia].
  - rewrite (map_ext _ (fun u => List.length
                                   (filter (fun k => String.eqb k u)
                                      (map field allIssues))))
      by (intros u; apply filter_field).
    rewrite counts_sum; [apply length_map|exact Hd|].
    intros k Hk. apply IssuesTable.mem_In. now apply IssuesTable.unique_In.
Qed.

Example badges_by_status :
  statusBadges (a_issues ++ b_issues) = [("Open", 5)].
Proof. reflexivity. Qed.

(** The merge button is offered exactly when [handleMerge] will send the
    request; the request then carries the file of every registered archive,
    in registry order, and [isMerging] is raised. *)
Theorem canMerge_means_request s :
  existsb is_request (snd (handleMerge_start s)) = canMerge s /\
  (canMerge s = true ->
   handleMerge_start s
   = (setIsMerging true s,
      [MergeRequest (map file (map_values (uploadedFiles s)))])).
Proof.
  unfold handleMerge_start, canMerge. rewrite length_map.
  rewrite Nat.leb_antisym.
  destruct (List.length (map_values (uploadedFiles s)) <? 2)%nat; simpl.
  - split; [reflexivity|discriminate].
  - split; reflexivity.
Qed.

End IssuesPageLaws.

(** ** The mock inspection: the project name *)

Module MockApi.

Import Store Dropzone.

(** [name.replace(/\.(bcf|bcfzip)$/i, '')]: scanning from the left, the first
    position from which the rest of the name is ".bcf" or ".bcfzip" in any
    letter case; the name is cut there. *)
Fixpoint stripExtension (s : string) : string :=
  if String.eqb (toLowerCase s) ".bcf" || String.eqb (toLowerCase s) ".bcfzip"
  then EmptyString
  else match s with
       | EmptyString => EmptyString
       | String c s' => String c (stripExtension s')
       end.

(** [projectMeta.name] of [inspectBCFWithMock]. *)
Definition projectName (f : File) : string := stripExtension (name f).

Definition ends_in_extension (s : string) : bool :=
  ends_with ".bcf" (toLowerCase s) || ends_with ".bcfzip" (toLowerCase s).

Lemma stripExtension_split s :
  exists ext,
    s = (stripExtension s ++ ext)%string /\
    if ends_in_extension s
    then toLowerCase ext = ".bcf" \/ toLowerCase ext = ".bcfzip"
    else ext = EmptyString.
Proof.
  induction s as [|c s (ext & Hs & Hext)].
  - exists EmptyString. split; reflexivity.
  - cbn [stripExtension]. unfold ends_in_extension in *.
    cbn [toLowerCase ends_with].
    destruct (String.eqb (String (lower c) (toLowerCase s)) ".bcf") eqn:E1.
    { exists (String c s). split; [reflexivity|]. cbn [orb].
      left. now apply String.eqb_eq. }
    destruct (String.eqb (String (lower c) (toLowerCase s)) ".bcfzip") eqn:E2.
    { exists (String c s). split; [reflexivity|]. cbn [orb].
      rewrite orb_true_r.
      right. now apply String.eqb_eq. }
    cbn [orb]. exists ext. split; [|exact Hext].
    cbn [String.append]. now rewrite <- Hs.
Qed.

(** The project name of the mock inspection is the file name without its
    ".bcf" or ".bcfzip" ending (in any letter case); a name without such an
    ending, "bcf" itself included, is the project name unchanged. *)
Theorem projectName_drops_extension f :
  exists ext,
    name f = (projectName f ++ ext)%string /\
    (has_extension f = true ->
     toLowerCase ext = ".bcf" \/ toLowerCase ext = ".bcfzip") /\
    (has_extension f = false -> projectName f = name f).
Proof.
  destruct (stripExtension_split (name f)) as (ext & Hs & Hext).
  exists ext. split; [exact Hs|].
  unfold has_extension. unfold ends_in_extension in Hext.
  destruct (ends_with ".bcf" (toLowerCase (name f))
            || ends_with ".bcfzip" (toLowerCase (name f))).
  - split; [intros _; exact Hext|discriminate].
  - split; [discriminate|]. intros _. subst ext.
    unfold projectName. rewrite Hs at 2.
    clear. induction (stripExtension (name f)); simpl; congruence.
Qed.

Example projectName_samples :
  projectName {| name := "Tower.A.BCFzip"; size := 1; content := 0 |}
    = "Tower.A" /\
  projectName {| name := "notes.bcf.txt"; size := 1; content := 0 |}
    = "notes.bcf.txt" /\
  projectName {| name := "bcf"; size := 1; content := 0 |} = "bcf".
Proof. repeat split. Qed.

End MockApi.
